(** * Turbine catalog backend: the import pipeline of [main.py]

    A shallow embedding of [fetch_google_sheet_csv], [parse_turbine_csv],
    [import_turbines] and [list_turbines], together with the Python
    built-ins they call, and the properties of the pipeline proved on it.

    Text is modelled as [string], one [ascii] per character: the model
    covers ASCII input, characters above 127 are kept as they are and are
    neither white space nor letters. *)

From Stdlib Require Import Ascii String NArith.
From stdpp Require Import base option list strings pretty gmap.

(** ** Python exceptions and fallible computations *)

Inductive exn : Type :=
  | HTTPException (status_code : nat) (detail : string)
  | IndexError
  | AttributeError
  | ValueError
  | TypeError
  | CsvError
  | RequestException.

Inductive result (A : Type) : Type :=
  | Ok (a : A)
  | Raise (e : exn).
Arguments Ok {A} a.
Arguments Raise {A} e.

Global Instance result_ret : MRet result := λ A a, Ok a.

Global Instance result_bind : MBind result := λ A B k m,
  match m with
  | Ok a => k a
  | Raise e => Raise e
  end.

Global Instance result_fmap : FMap result := λ A B f m,
  match m with
  | Ok a => Ok (f a)
  | Raise e => Raise e
  end.

(** [try: m except Exception: h] *)
Definition try_except {A} (m : result A) (h : result A) : result A :=
  match m with
  | Ok a => Ok a
  | Raise _ => h
  end.

(** ** Python [str] built-ins *)

Module PyStr.

Definition isupper (c : ascii) : bool :=
  let n := nat_of_ascii c in (65 <=? n) && (n <=? 90).

Definition islower (c : ascii) : bool :=
  let n := nat_of_ascii c in (97 <=? n) && (n <=? 122).

Definition isalpha (c : ascii) : bool := isupper c || islower c.

(** [str.isspace] on the ASCII range: tab, line feed, vertical tab, form
    feed, carriage return, the four separators 28..31, and the space. *)
Definition isspace (c : ascii) : bool :=
  let n := nat_of_ascii c in
  ((9 <=? n) && (n <=? 13)) || ((28 <=? n) && (n <=? 32)).

Definition upper_char (c : ascii) : ascii :=
  if islower c then ascii_of_nat (nat_of_ascii c - 32) else c.

Definition lower_char (c : ascii) : ascii :=
  if isupper c then ascii_of_nat (nat_of_ascii c + 32) else c.

(** [s.lower()] *)
Fixpoint lower (s : string) : string :=
  match s with
  | "" => ""
  | String c s' => String (lower_char c) (lower s')
  end.

(** [s.lstrip()], [s.rstrip()] and [s.strip()] with no argument. *)
Fixpoint lstrip (s : string) : string :=
  match s with
  | "" => ""
  | String c s' => if isspace c then lstrip s' else s
  end.

Fixpoint rstrip (s : string) : string :=
  match s with
  | "" => ""
  | String c s' =>
      match rstrip s' with
      | "" => if isspace c then "" else String c ""
      | r => String c r
      end
  end.

Definition strip (s : string) : string := rstrip (lstrip s).

(** [s.title()]: CPython walks the characters with one flag,
    [previous_is_cased]; a cased character is upper-cased when the flag is
    off and lower-cased when it is on, and every uncased character turns
    the flag off. *)
Fixpoint title_from (previous_is_cased : bool) (s : string) : string :=
  match s with
  | "" => ""
  | String c s' =>
      if islower c then
        String (if previous_is_cased then c else upper_char c)
               (title_from true s')
      else if isupper c then
        String (if previous_is_cased then lower_char c else c)
               (title_from true s')
      else String c (title_from false s')
  end.

Definition title (s : string) : string := title_from false s.

(** [s.startswith(sub)] *)
Fixpoint startswith (sub s : string) : bool :=
  match sub, s with
  | "", _ => true
  | String a sub', String b s' => Ascii.eqb a b && startswith sub' s'
  | String _ _, "" => false
  end.

(** [sub in s] *)
Fixpoint contains (sub s : string) : bool :=
  startswith sub s
  || match s with
     | "" => false
     | String _ s' => contains sub s'
     end.

(** [s.split(sep)] for a non-empty [sep] (every call of the source passes
    a non-empty literal).  The text is scanned from the left; [skip]
    counts the characters of a separator just matched that are still to
    be dropped, [cur] is the piece being collected, last character
    first. *)
Fixpoint split_from (sep : string) (skip : nat) (cur : string) (s : string)
  : list string :=
  match s with
  | "" => [String.rev cur]
  | String c s' =>
      match skip with
      | S k => split_from sep k cur s'
      | 0 =>
          if startswith sep s
          then String.rev cur :: split_from sep (String.length sep - 1) "" s'
          else split_from sep 0 (String c cur) s'
      end
  end.

Definition split (sep s : string) : list string := split_from sep 0 "" s.

(** [l[i]] on a list: [IndexError] when out of range. *)
Definition item {A} (l : list A) (i : nat) : result A :=
  match l !! i with
  | Some a => Ok a
  | None => Raise IndexError
  end.

(** Truth value of a [str]: the empty string is false. *)
Definition truthy (s : string) : bool :=
  match s with "" => false | _ => true end.

End PyStr.

(** ** The runtime and the network

    [float(x)] on a [str] and [requests.get(url, timeout=20)] are taken as
    they come: the first returns a float or raises [ValueError], the second
    returns a response or raises. *)

Class Runtime := {
  float : Type;
  py_float : string → result float
}.

Record Response := { status_code : nat; text : string }.

Class Network := {
  requests_get : string → result Response
}.

(** ** URL resolution: lines 75-95 of [fetch_google_sheet_csv] *)

Definition marker : string := "export?format=csv".

Definition export_url (sheet_url : string) : result string :=
  if PyStr.contains marker sheet_url then Ok sheet_url
  else
    doc_id ← try_except
      (parts ← PyStr.item (PyStr.split "/d/" sheet_url) 1;
       PyStr.item (PyStr.split "/" parts) 0)
      (Raise (HTTPException 400 "Invalid Google Sheets URL"));
    let gid : option string :=
      if PyStr.contains "gid=" sheet_url then
        match (p ← PyStr.item (PyStr.split "gid=" sheet_url) 1;
               PyStr.item (PyStr.split "&" p) 0) with
        | Ok g => Some g
        | Raise _ => None
        end
      else None in
    match gid with
    | Some (String _ _ as g) =>
        Ok ("https://docs.google.com/spreadsheets/d/" +:+ doc_id
            +:+ "/export?format=csv&gid=" +:+ g)
    | _ =>
        Ok ("https://docs.google.com/spreadsheets/d/" +:+ doc_id
            +:+ "/export?format=csv")
    end.

(** ** [csv.reader] over [StringIO(csv_text)], default dialect

    [StringIO] hands out the text line by line, each line ending with its
    line feed.  The reader is CPython's state machine, with the settings of
    the [excel] dialect: the comma as delimiter, the double quote as quote
    character, doubled quotes, no escape character, not strict. *)

Module Csv.

Definition LF : ascii := ascii_of_nat 10.
Definition CR : ascii := ascii_of_nat 13.
Definition delimiter : ascii := ascii_of_nat 44.
Definition quotechar : ascii := ascii_of_nat 34.
Definition field_limit : N := 131072.

(** Iteration over [StringIO(text)]. *)
Fixpoint lines_from (cur : string) (text : string) : list string :=
  match text with
  | "" => match cur with "" => [] | _ => [String.rev cur] end
  | String c text' =>
      if Ascii.eqb c LF then String.rev (String c cur) :: lines_from "" text'
      else lines_from (String c cur) text'
  end.

Definition lines (text : string) : list string := lines_from "" text.

Inductive state : Type :=
  | START_RECORD
  | START_FIELD
  | IN_FIELD
  | IN_QUOTED_FIELD
  | QUOTE_IN_QUOTED_FIELD
  | EAT_CRNL.

(** The field being read (last character first) with its length, and the
    fields of the record read so far (last field first). *)
Record Reader := {
  st : state;
  field : string;
  field_len : N;
  fields : list string
}.

Definition parse_reset : Reader :=
  {| st := START_RECORD; field := ""; field_len := 0; fields := [] |}.

Definition parse_save_field (r : Reader) : Reader :=
  {| st := st r; field := ""; field_len := 0;
     fields := String.rev (field r) :: fields r |}.

Definition parse_add_char (r : Reader) (c : ascii) : result Reader :=
  if (field_limit <=? field_len r)%N then Raise CsvError
  else Ok {| st := st r; field := String c (field r);
             field_len := N.succ (field_len r); fields := fields r |}.

Definition set_state (s : state) (r : Reader) : Reader :=
  {| st := s; field := field r; field_len := field_len r;
     fields := fields r |}.

Definition is_newline (c : ascii) : bool := Ascii.eqb c LF || Ascii.eqb c CR.

(** [parse_process_char]; [None] is the end-of-line mark [EOL] the reader
    feeds itself after the last character of each line. *)
Definition start_field (r : Reader) (c : option ascii) : result Reader :=
  match c with
  | None => Ok (set_state START_RECORD (parse_save_field r))
  | Some a =>
      if is_newline a then Ok (set_state EAT_CRNL (parse_save_field r))
      else if Ascii.eqb a quotechar then Ok (set_state IN_QUOTED_FIELD r)
      else if Ascii.eqb a delimiter then Ok (parse_save_field r)
      else set_state IN_FIELD <$> parse_add_char r a
  end.

Definition parse_process_char (r : Reader) (c : option ascii)
  : result Reader :=
  match st r with
  | START_RECORD =>
      match c with
      | None => Ok r
      | Some a =>
          if is_newline a then Ok (set_state EAT_CRNL r)
          else start_field (set_state START_FIELD r) c
      end
  | START_FIELD => start_field r c
  | IN_FIELD =>
      match c with
      | None => Ok (set_state START_RECORD (parse_save_field r))
      | Some a =>
          if is_newline a then Ok (set_state EAT_CRNL (parse_save_field r))
          else if Ascii.eqb a delimiter
          then Ok (set_state START_FIELD (parse_save_field r))
          else parse_add_char r a
      end
  | IN_QUOTED_FIELD =>
      match c with
      | None => Ok r
      | Some a =>
          if Ascii.eqb a quotechar then Ok (set_state QUOTE_IN_QUOTED_FIELD r)
          else parse_add_char r a
      end
  | QUOTE_IN_QUOTED_FIELD =>
      match c with
      | None => Ok (set_state START_RECORD (parse_save_field r))
      | Some a =>
          if Ascii.eqb a quotechar
          then set_state IN_QUOTED_FIELD <$> parse_add_char r a
          else if Ascii.eqb a delimiter
          then Ok (set_state START_FIELD (parse_save_field r))
          else if is_newline a
          then Ok (set_state EAT_CRNL (parse_save_field r))
          else set_state IN_FIELD <$> parse_add_char r a
      end
  | EAT_CRNL =>
      match c with
      | None => Ok (set_state START_RECORD r)
      | Some a => if is_newline a then Ok r else Raise CsvError
      end
  end.

(** The characters of one line, then [EOL]. *)
Fixpoint process_line (r : Reader) (line : string) : result Reader :=
  match line with
  | "" => parse_process_char r None
  | String c line' =>
      r' ← parse_process_char r (Some c); process_line r' line'
  end.

(** What an iterator yields until it stops or raises. *)
Inductive stream (A : Type) : Type :=
  | Stop
  | Yield (a : A) (rest : stream A)
  | Fail (e : exn).
Arguments Stop {A}.
Arguments Yield {A} a rest.
Arguments Fail {A} e.

(** [list(iterator)] *)
Fixpoint collect {A} (s : stream A) : result (list A) :=
  match s with
  | Stop => Ok []
  | Fail e => Raise e
  | Yield a rest => cons a <$> collect rest
  end.

(** [Reader_iternext], repeated: a record is complete when a line leaves
    the machine in [START_RECORD]; when the lines run out inside a record,
    what was read is yielded if a field is under way. *)
Fixpoint reader_from (r : Reader) (ls : list string) : stream (list string) :=
  match ls with
  | [] =>
      match st r, field_len r with
      | IN_QUOTED_FIELD, _ | _, Npos _ =>
          Yield (rev (fields (parse_save_field r))) Stop
      | _, _ => Stop
      end
  | line :: ls' =>
      match process_line r line with
      | Raise e => Fail e
      | Ok r' =>
          match st r' with
          | START_RECORD => Yield (rev (fields r')) (reader_from parse_reset ls')
          | _ => reader_from r' ls'
          end
      end
  end.

Definition reader (csv_text : string) : stream (list string) :=
  reader_from parse_reset (lines csv_text).

(** A row of [csv.DictReader]: a [dict] in insertion order whose keys are
    column names or [None] (the [restkey]) and whose values are cells,
    [None] (the [restval]) or the list of surplus cells. *)
Inductive cell : Type :=
  | CStr (s : string)
  | CNone
  | CList (l : list string).

Definition dict (K V : Type) : Type := list (K * V).

Fixpoint dict_set {K V} `{EqDecision K} (k : K) (v : V) (d : dict K V)
  : dict K V :=
  match d with
  | [] => [(k, v)]
  | (k', v') :: d' =>
      if decide (k = k') then (k, v) :: d' else (k', v') :: dict_set k v d'
  end.

(** [dict(zip(fieldnames, row))] *)
Fixpoint dict_zip (d : dict (option string) cell)
    (fieldnames row : list string) : dict (option string) cell :=
  match fieldnames, row with
  | k :: fieldnames', v :: row' =>
      dict_zip (dict_set (Some k) (CStr v) d) fieldnames' row'
  | _, _ => d
  end.

(** [DictReader.__next__] once the row is not blank. *)
Definition dict_row (fieldnames row : list string)
  : dict (option string) cell :=
  let d := dict_zip [] fieldnames row in
  let lf := length fieldnames in
  let lr := length row in
  if lf <? lr then dict_set None (CList (drop lf row)) d
  else foldl (λ d key, dict_set (Some key) CNone d) d (drop lr fieldnames).

(** The rows after the header; blank rows ([[]]) are passed over. *)
Fixpoint dict_rows (fieldnames : list string) (rows : stream (list string))
  : stream (dict (option string) cell) :=
  match rows with
  | Stop => Stop
  | Fail e => Fail e
  | Yield [] rest => dict_rows fieldnames rest
  | Yield row rest => Yield (dict_row fieldnames row) (dict_rows fieldnames rest)
  end.

(** [csv.DictReader(f)]: the first row read is the header. *)
Definition DictReader (csv_text : string)
  : stream (dict (option string) cell) :=
  match reader csv_text with
  | Stop => Stop
  | Fail e => Fail e
  | Yield fieldnames rest => dict_rows fieldnames rest
  end.

End Csv.

(** ** The [Turbine] schema *)

(** Modelled from the spec: [schemas.py] is not part of the sources; the
    fields are those of the TurbineRecord of the data model. *)
Record Turbine {RT : Runtime} := {
  name : string;
  status : string;
  latitude : option float;
  longitude : option float;
  capacity_mw : option float;
  location : option string
}.

(** ** [parse_turbine_csv] *)

Section Parser.
Context {RT : Runtime}.

(** [x or y] on values that are a [str] or [None]. *)
Definition py_or (x y : option string) : option string :=
  match x with
  | Some (String _ _) => x
  | _ => y
  end.

(** [x or d] with a literal [d]. *)
Definition or_str (x : option string) (d : string) : string :=
  match x with
  | Some (String _ _ as s) => s
  | _ => d
  end.

(** [(v or '').strip()] on a cell of a [DictReader] row; a non-empty list
    has no [strip]. *)
Definition strip_cell (v : Csv.cell) : result string :=
  match v with
  | Csv.CStr s => Ok (PyStr.strip s)
  | Csv.CNone | Csv.CList [] => Ok (PyStr.strip "")
  | Csv.CList (_ :: _) => Raise AttributeError
  end.

(** The dict comprehension of line 114, item by item. *)
Fixpoint normalize (items : Csv.dict (option string) Csv.cell)
    (acc : gmap string string) : result (gmap string string) :=
  match items with
  | [] => Ok acc
  | (k, v) :: items' =>
      let key := PyStr.lower (PyStr.strip (default "" k)) in
      value ← strip_cell v;
      normalize items' (<[key := value]> acc)
  end.

Definition absent_tokens : list (option string) :=
  [None; Some ""; Some "NA"; Some "N/A"].

Definition to_float (x : option string) : result (option float) :=
  try_except
    (if bool_decide (x ∉ absent_tokens) then
       match x with
       | Some s => Some <$> py_float s
       | None => Raise TypeError
       end
     else Ok None)
    (Ok None).

(** The resolved cells of lines 115-120. *)
Definition name_cell (normalized : gmap string string) : option string :=
  py_or (normalized !! "name") (py_or (normalized !! "turbine")
    (py_or (normalized !! "id") (normalized !! "identifier"))).

Definition status_cell (normalized : gmap string string) : option string :=
  py_or (normalized !! "status") (normalized !! "state").

Definition lat_cell (normalized : gmap string string) : option string :=
  py_or (normalized !! "lat") (normalized !! "latitude").

Definition lng_cell (normalized : gmap string string) : option string :=
  py_or (normalized !! "lng") (normalized !! "longitude").

Definition capacity_cell (normalized : gmap string string) : option string :=
  py_or (normalized !! "capacity_mw")
    (py_or (normalized !! "capacity") (normalized !! "mw")).

Definition location_cell (normalized : gmap string string) : option string :=
  py_or (normalized !! "location")
    (py_or (normalized !! "site") (normalized !! "address")).

(** Lines 128-135. *)
Definition record_of (normalized : gmap string string) : result Turbine :=
  lat ← to_float (lat_cell normalized);
  lng ← to_float (lng_cell normalized);
  capacity ← to_float (capacity_cell normalized);
  Ok {| name := or_str (name_cell normalized) "Unnamed Turbine";
        status := PyStr.title (or_str (status_cell normalized) "Unknown");
        latitude := lat;
        longitude := lng;
        capacity_mw := capacity;
        location := py_or (location_cell normalized) None |}.

(** The body of the loop of line 112 on one row. *)
Definition parse_row (row : Csv.dict (option string) Csv.cell)
  : result Turbine :=
  normalized ← normalize row ∅; record_of normalized.

Fixpoint parse_rows (reader : Csv.stream (Csv.dict (option string) Csv.cell))
    (records : list Turbine) : result (list Turbine) :=
  match reader with
  | Csv.Stop => Ok records
  | Csv.Fail e => Raise e
  | Csv.Yield row rest =>
      record ← parse_row row; parse_rows rest (records ++ [record])
  end.

Definition parse_turbine_csv (csv_text : string) : result (list Turbine) :=
  parse_rows (Csv.DictReader csv_text) [].

End Parser.

(** ** The catalog store

    The collection [db['turbine']] is the list of its documents in natural
    order.  [find_one], [update_one] with [$set] and [find] follow the
    collaborator contract of the spec: the first match is returned or
    updated, and a new document gets an identifier no stored document
    has. *)

Definition ObjectId : Type := nat.

(** Modelled from the spec: the module [database] ([db],
    [create_document], [get_documents]) is not part of the sources.  A
    stored document is its store-assigned identifier and the six data
    fields of the record it was written from. *)
Record Document {RT : Runtime} := {
  _id : ObjectId;
  data : Turbine
}.

Abbreviation Collection := (list Document).

Section Store.
Context {RT : Runtime}.

(** [find_one({'name': n})] *)
Definition find_one_name (n : string) (c : Collection) : option Document :=
  snd <$> list_find (λ d, name (data d) = n) c.

(** [update_one({'_id': oid}, {'$set': payload})]: every data field is in
    the payload, so the data of the document is replaced. *)
Definition update_one_id (oid : ObjectId) (payload : Turbine) (c : Collection)
  : Collection :=
  match list_find (λ d, _id d = oid) c with
  | Some (i, d) => <[i := {| _id := _id d; data := payload |}]> c
  | None => c
  end.

Definition fresh_id (c : Collection) : ObjectId := S (max_list (_id <$> c)).

(** [insert_one(payload)]: the new document gets an identifier that no
    stored document has. *)
Definition insert_one (payload : Turbine) (c : Collection)
  : ObjectId * Collection :=
  let oid := fresh_id c in
  (oid, c ++ [{| _id := oid; data := payload |}]).

(** One turn of the loop of [import_turbines] on the collection. *)
Definition upsert (t : Turbine) (c : Collection) : Collection :=
  match find_one_name (name t) c with
  | Some existing => update_one_id (_id existing) t c
  | None => (insert_one t c).2
  end.

(** A filter is a [dict] of field names and the values they must equal;
    [list_turbines] only ever puts a [str] under ['status']. *)
Definition field_is (d : Document) (key value : string) : bool :=
  if decide (key = "name") then bool_decide (name (data d) = value)
  else if decide (key = "status") then bool_decide (status (data d) = value)
  else if decide (key = "location")
  then bool_decide (location (data d) = Some value)
  else false.

Definition matches (filt : Csv.dict string string) (d : Document) : bool :=
  forallb (λ kv, field_is d kv.1 kv.2) filt.

(** [find(filt)]: the documents that match, in their order. *)
Definition find (filt : Csv.dict string string) (c : Collection)
  : list Document :=
  filter (λ d, matches filt d = true) c.

End Store.

(** ** The handlers *)

Record ImportResult := { inserted : nat; updated : nat }.

(** What a request can see and change: the store handle [db] ([None] when
    the database is not configured) and the URLs fetched so far. *)
Record World {RT : Runtime} := {
  db : option Collection;
  fetched : list string
}.

Section Handlers.
Context {RT : Runtime} {NW : Network}.

Definition IO (A : Type) : Type := World → result A * World.

Global Instance IO_ret : MRet IO := λ A a w, (Ok a, w).

Global Instance IO_bind : MBind IO := λ A B k m w,
  match m w with
  | (Ok a, w') => k a w'
  | (Raise e, w') => (Raise e, w')
  end.

Definition raise {A} (e : exn) : IO A := λ w, (Raise e, w).

Definition lift {A} (m : result A) : IO A := λ w, (m, w).

Definition get_db : IO (option Collection) := λ w, (Ok (db w), w).

(** An operation on [db['turbine']]; without a database the subscript
    fails. *)
Definition on_collection {A} (f : Collection → A * Collection) : IO A := λ w,
  match db w with
  | Some c =>
      let '(a, c') := f c in (Ok a, {| db := Some c'; fetched := fetched w |})
  | None => (Raise TypeError, w)
  end.

Definition find_one (n : string) : IO (option Document) :=
  on_collection (λ c, (find_one_name n c, c)).

Definition update_one (oid : ObjectId) (payload : Turbine) : IO () :=
  on_collection (λ c, ((), update_one_id oid payload c)).

(** Modelled from the spec: [create_document] is not part of the
    sources; it is [insertOne(collection, fields)], which creates a new
    document with a store-assigned identifier and returns the
    identifier. *)
Definition create_document (payload : Turbine) : IO string :=
  on_collection (λ c, let '(oid, c') := insert_one payload c in
                      (pretty oid, c')).

(** Modelled from the spec: [get_documents] is not part of the sources;
    it is [find(collection, filter)], the sequence of the documents that
    match the filter. *)
Definition get_documents (filt : Csv.dict string string)
  : IO (list Document) :=
  on_collection (λ c, (find filt c, c)).

(** [requests.get(url, timeout=20)] *)
Definition get (url : string) : IO Response := λ w,
  (requests_get url, {| db := db w; fetched := fetched w ++ [url] |}).

Definition fetch_google_sheet_csv (sheet_url : string) : IO string :=
  url ← lift (export_url sheet_url);
  resp ← get url;
  if decide (status_code resp ≠ 200) then
    raise (HTTPException 400
             ("Failed to fetch sheet CSV: " +:+ pretty (status_code resp)))
  else mret (text resp).

(** The loop of lines 154-163. *)
Fixpoint upsert_all (turbines : list Turbine) (inserted updated : nat)
  : IO (nat * nat) :=
  match turbines with
  | [] => mret (inserted, updated)
  | t :: turbines' =>
      existing ← find_one (name t);
      match existing with
      | Some e =>
          _ ← update_one (_id e) t;
          upsert_all turbines' inserted (S updated)
      | None =>
          _ ← create_document t;
          upsert_all turbines' (S inserted) updated
      end
  end.

Definition import_turbines (sheet_url : string) : IO ImportResult :=
  database ← get_db;
  match database with
  | None => raise (HTTPException 500 "Database not configured")
  | Some _ =>
      csv_text ← fetch_google_sheet_csv sheet_url;
      turbines ← lift (parse_turbine_csv csv_text);
      counts ← upsert_all turbines 0 0;
      mret {| inserted := counts.1; updated := counts.2 |}
  end.

(** [serialize_doc]: the identifier is rendered as a string under [id]. *)
Record TurbineOut := {
  id : string;
  turbine : Turbine
}.

Definition serialize_doc (doc : Document) : TurbineOut :=
  {| id := pretty (_id doc); turbine := data doc |}.

Definition list_turbines (status : option string) : IO (list TurbineOut) :=
  database ← get_db;
  match database with
  | None => raise (HTTPException 500 "Database not configured")
  | Some _ =>
      let filt : Csv.dict string string :=
        match status with
        | Some (String _ _ as s) => Csv.dict_set "status" (PyStr.title s) []
        | _ => []
        end in
      docs ← get_documents filt;
      mret (serialize_doc <$> docs)
  end.

End Handlers.

(** ** The words of the spec *)




(** The character that stands in a title-cased text where [c] stood,
    given whether a letter stands just before it. *)
Definition title_char (after_letter : bool) (c : ascii) : ascii :=
  if PyStr.isalpha c
  then if after_letter then PyStr.lower_char c else PyStr.upper_char c
  else c.


(** A cell that is missing or empty. *)
Definition blank (x : option string) : Prop := x = None ∨ x = Some "".

(** A row in which no column has a value. *)
Definition all_blank (normalized : gmap string string) : Prop :=
  map_Forall (λ _ v, v = "") normalized.

(** A cell that [strip_cell] accepts, with a stripped value in [Q]. *)
Definition strippable (Q : string → Prop) (kv : option string * Csv.cell)
  : Prop :=
  ∃ s, strip_cell kv.2 = Ok s ∧ Q s.

Section Words.
Context {RT : Runtime}.

(** The record with every field at its default. *)
Definition default_record : Turbine :=
  {| name := "Unnamed Turbine"; status := "Unknown"; latitude := None;
     longitude := None; capacity_mw := None; location := None |}.

(** A numeric cell that gives no number. *)
Definition unparsable (x : option string) : Prop :=
  x ∈ absent_tokens ∨ ∃ s e, x = Some s ∧ py_float s = Raise e.

(** The numeric fields of a record are what [to_float] makes of their
    cells, and absent when the cell gives no number. *)
Definition numeric_absent (normalized : gmap string string) (t : Turbine)
  : Prop :=
  (to_float (lat_cell normalized) = Ok (latitude t)
   ∧ (unparsable (lat_cell normalized) → latitude t = None))
  ∧ (to_float (lng_cell normalized) = Ok (longitude t)
     ∧ (unparsable (lng_cell normalized) → longitude t = None))
  ∧ (to_float (capacity_cell normalized) = Ok (capacity_mw t)
     ∧ (unparsable (capacity_cell normalized) → capacity_mw t = None)).

(** Every record comes from its row, in order, and [P] holds of the
    normalized row and its record. *)
Definition each_row (csv_text : string) (records : list Turbine)
    (P : gmap string string → Turbine → Prop) : Prop :=
  ∃ rows,
    Csv.collect (Csv.DictReader csv_text) = Ok rows
    ∧ Forall2 (λ row t, ∃ normalized,
                 normalize row ∅ = Ok normalized ∧ P normalized t)
        rows records.

(** The names stored in a collection. *)
Definition names (c : Collection) : gset string :=
  list_to_set ((λ d, name (data d)) <$> c).

(** The counts of an import, inserted then updated: [known] holds the
    names that are stored or were met earlier in the call; a record whose
    name is known is an update, any other is an insert and makes its name
    known. *)
Fixpoint spec_counts (known : gset string) (ts : list Turbine) : nat * nat :=
  match ts with
  | [] => (0, 0)
  | t :: ts' =>
      if decide (name t ∈ known) then
        let '(i, u) := spec_counts known ts' in (i, S u)
      else
        let '(i, u) := spec_counts ({[name t]} ∪ known) ts' in (S i, u)
  end.

End Words.

(** ** Sample inputs

    A runtime in which the floats are the natural numbers and only runs of
    digits parse, a network that serves one sheet, and a store with one
    turbine: enough to run the pipeline on examples. *)

Definition nl : string := String Csv.LF "".
Definition dq : string := String Csv.quotechar "".

Fixpoint whole (acc : nat) (s : string) : result nat :=
  match s with
  | "" => Ok acc
  | String c s' =>
      match Ascii.is_nat c with
      | Some d => whole (10 * acc + d) s'
      | None => Raise ValueError
      end
  end.

Definition sample_runtime : Runtime :=
  {| float := nat;
     py_float := λ s, match s with "" => Raise ValueError | _ => whole 0 s end |}.

Definition sample_sheet : string :=
  "Name,State,lat,capacity" +:+ nl
  +:+ "T1,active,10,2" +:+ nl
  +:+ "T2,IN SERVICE,NA,n/a" +:+ nl
  +:+ "T1,inactive,11,3" +:+ nl.

Definition sample_network : Network :=
  {| requests_get := λ url,
       if PyStr.contains marker url
       then Ok {| status_code := 200; text := sample_sheet |}
       else Ok {| status_code := 404; text := "" |} |}.

Definition sample_store : list (@Document sample_runtime) :=
  [ @Build_Document sample_runtime 7
      (@Build_Turbine sample_runtime "T2" "Unknown" None None (Some 5)
         (Some "North")) ].

Definition sample_records : list (@Turbine sample_runtime) :=
  [ @Build_Turbine sample_runtime "T1" "Active" (Some 10) None (Some 2) None;
    @Build_Turbine sample_runtime "T2" "In Service" None None None None;
    @Build_Turbine sample_runtime "T1" "Inactive" (Some 11) None (Some 3) None ].

Definition sample_world : @World sample_runtime :=
  {| db := Some sample_store; fetched := [] |}.
(** ** The sheets host *)

(** The prefix of the export URLs that [fetch_google_sheet_csv] builds. *)
Definition sheets : string := "https://docs.google.com/spreadsheets/d/".

(** ** ASCII text *)

(** [s.isascii()]: every character of [s] is below 128.  On such a text
    [PyStr.title], [PyStr.strip] and [PyStr.lower] are [str.title],
    [str.strip] and [str.lower]; on other text Python goes by the Unicode
    case mappings and white space, which [string] does not carry. *)
Fixpoint isascii (s : string) : bool :=
  match s with
  | "" => true
  | String c s' => (nat_of_ascii c <? 128) && isascii s'
  end.

(** ** Column names *)

(** The key of the cells of column [h] in the normalized row: line 114
    strips and lowercases the names of the header. *)
Definition column_key (h : string) : string := PyStr.lower (PyStr.strip h).

(** ** [turbine_stats] *)

Record TurbineStats := { active : nat; inactive : nat; unknown : nat }.

Section Stats.
Context {RT : Runtime}.

(** Modelled from the spec: [count_documents] is a method of the store
    handle, which is not part of the sources; it is
    [countDocuments(collection, filter)], the number of the documents
    that match the filter. *)
Definition count_documents (filt : Csv.dict string string) : IO nat :=
  on_collection (λ c, (length (find filt c), c)).

(** The local [count] of [turbine_stats]. *)
Definition count (s : string) : IO nat :=
  count_documents (Csv.dict_set "status" s []).

Definition turbine_stats : IO TurbineStats :=
  database ← get_db;
  match database with
  | None => raise (HTTPException 500 "Database not configured")
  | Some _ =>
      a ← count "Active";
      i ← count "Inactive";
      u ← count "Unknown";
      mret {| active := a; inactive := i; unknown := u |}
  end.

End Stats.

(** ** More sample inputs *)

(** A network whose every answer is a 503. *)
Definition down_network : Network :=
  {| requests_get := λ url, Ok {| status_code := 503; text := "" |} |}.

(** The row of [T1] in the sample sheet, normalized. *)
Definition sample_normalized : gmap string string :=
  match normalize
          (Csv.dict_row ["Name"; "State"; "lat"; "capacity"]
             ["T1"; "active"; "10"; "2"]) ∅ with
  | Ok m => m
  | Raise _ => ∅
  end.

(** * Properties *)

(** ** Text *)

Lemma rev_app_append (s1 s2 s3 : string) :
  String.rev_app s1 s2 +:+ s3 = String.rev_app s1 (s2 +:+ s3).
Proof.
  revert s2. induction s1 as [|c s1 IH]; intros s2; simpl; [done|].
  by rewrite IH.
Qed.

Lemma contains_prefix (sub s : string) :
  PyStr.startswith sub s = true → PyStr.contains sub s = true.
Proof. intros Hp. destruct s; cbn [PyStr.contains]; by rewrite Hp. Qed.

Lemma contains_cons (sub : string) (c : ascii) (s : string) :
  PyStr.contains sub s = true → PyStr.contains sub (String c s) = true.
Proof. intros Hc. cbn [PyStr.contains]. rewrite Hc. apply orb_true_r. Qed.

Lemma contains_append_r (sub s1 s2 : string) :
  PyStr.contains sub s2 = true → PyStr.contains sub (s1 +:+ s2) = true.
Proof.
  intros Hc. induction s1 as [|c s1 IH]; [done|].
  by apply (contains_cons sub c (s1 +:+ s2)).
Qed.

Lemma contains_false_inv (sub : string) (c : ascii) (s : string) :
  PyStr.contains sub (String c s) = false →
  PyStr.startswith sub (String c s) = false ∧ PyStr.contains sub s = false.
Proof. cbn [PyStr.contains]. by intros [??]%orb_false_elim. Qed.

(** A text without the separator is not split. *)
Lemma split_from_absent (sep cur s : string) :
  PyStr.contains sep s = false →
  PyStr.split_from sep 0 cur s = [String.rev cur +:+ s].
Proof.
  revert cur. induction s as [|c s IH]; intros cur Hc.
  - simpl. f_equal. unfold String.rev. by rewrite rev_app_append.
  - apply contains_false_inv in Hc as [Hp Hc].
    cbn [PyStr.split_from]. rewrite Hp, (IH _ Hc). f_equal.
    unfold String.rev. cbn [String.rev_app]. by rewrite !rev_app_append.
Qed.

Lemma split_absent (sep s : string) :
  PyStr.contains sep s = false → PyStr.split sep s = [s].
Proof. apply split_from_absent. Qed.

(** ** URL resolution *)

Lemma export_url_marked (sheet_url : string) :
  PyStr.contains marker sheet_url = true → export_url sheet_url = Ok sheet_url.
Proof. unfold export_url. by intros ->. Qed.

(** What the resolver builds contains the marker. *)
Lemma export_url_has_marker (sheet_url url : string) :
  export_url sheet_url = Ok url → PyStr.contains marker url = true.
Proof.
  unfold export_url.
  destruct (PyStr.contains marker sheet_url) eqn:Hm; [by intros [= <-]|].
  destruct (try_except _ _) as [doc_id|e]; [|done]. cbn.
  intros Hurl.
  assert (∀ tail, PyStr.contains marker
            ("https://docs.google.com/spreadsheets/d/" +:+ doc_id
             +:+ "/export?format=csv" +:+ tail) = true) as Hbuilt.
  { intros tail. do 2 apply contains_append_r. reflexivity. }
  repeat case_match; simplify_eq; first [apply (Hbuilt "") | apply (Hbuilt (String _ _))].
Qed.

(** Resolving twice is resolving once. *)
Lemma export_url_idempotent (sheet_url url : string) :
  export_url sheet_url = Ok url → export_url url = Ok url.
Proof. intros Hu. by apply export_url_marked, (export_url_has_marker sheet_url). Qed.

(** ** Letters and title case *)

Lemma isupper_not_islower (c : ascii) :
  PyStr.isupper c = true → PyStr.islower c = false.
Proof.
  unfold PyStr.isupper, PyStr.islower.
  intros [?%Nat.leb_le ?%Nat.leb_le]%andb_true_iff.
  apply andb_false_iff. left. apply Nat.leb_gt. lia.
Qed.

Lemma upper_char_id (c : ascii) : PyStr.islower c = false → PyStr.upper_char c = c.
Proof. unfold PyStr.upper_char. by intros ->. Qed.

Lemma lower_char_id (c : ascii) : PyStr.isupper c = false → PyStr.lower_char c = c.
Proof. unfold PyStr.lower_char. by intros ->. Qed.

Lemma title_from_cons (b : bool) (c : ascii) (s : string) :
  PyStr.title_from b (String c s)
  = String (title_char b c) (PyStr.title_from (PyStr.isalpha c) s).
Proof.
  cbn [PyStr.title_from]. unfold title_char, PyStr.isalpha.
  destruct (PyStr.islower c) eqn:Hl.
  - rewrite orb_true_r.
    assert (PyStr.isupper c = false) as Hu.
    { destruct (PyStr.isupper c) eqn:Hu; [|done].
      apply isupper_not_islower in Hu. congruence. }
    by rewrite (lower_char_id c Hu).
  - rewrite orb_false_r. destruct (PyStr.isupper c) eqn:Hu; [|done].
    by rewrite (upper_char_id c Hl).
Qed.





(** ** The parser *)

Section ParserFacts.
Context {RT : Runtime}.

Lemma py_or_blank (x y : option string) : blank x → py_or x y = y.
Proof. by intros [-> | ->]. Qed.

Lemma py_or_blank_blank (x y : option string) :
  blank x → blank y → blank (py_or x y).
Proof. intros Hx Hy. by rewrite py_or_blank. Qed.

Lemma or_str_blank (x : option string) (d : string) : blank x → or_str x d = d.
Proof. by intros [-> | ->]. Qed.

Lemma or_str_nonempty (x : option string) (d : string) :
  d ≠ "" → or_str x d ≠ "".
Proof. intros Hd. by destruct x as [[|c s]|]. Qed.


(** [to_float] returns: the [try] swallows what [float] raises. *)
Lemma to_float_returns (x : option string) : ∃ r, to_float x = Ok r.
Proof.
  unfold to_float. case_bool_decide; [|by eexists].
  destruct x as [s|]; [|by eexists]. cbn.
  destruct (py_float s); by eexists.
Qed.

Lemma to_float_absent_token (x : option string) :
  x ∈ absent_tokens → to_float x = Ok None.
Proof.
  intros Hx. unfold to_float. case_bool_decide; [done|]. done.
Qed.

Lemma to_float_unparsable (s : string) (e : exn) :
  py_float s = Raise e → to_float (Some s) = Ok None.
Proof.
  intros Hs. unfold to_float. case_bool_decide; [|done]. cbn. by rewrite Hs.
Qed.

Lemma to_float_blank (x : option string) : blank x → to_float x = Ok None.
Proof.
  intros Hx. apply to_float_absent_token. unfold absent_tokens.
  destruct Hx as [-> | ->]; set_solver.
Qed.

(** [record_of] returns, and what it returns. *)
Lemma record_of_returns (normalized : gmap string string) :
  ∃ lat lng capacity,
    to_float (lat_cell normalized) = Ok lat
    ∧ to_float (lng_cell normalized) = Ok lng
    ∧ to_float (capacity_cell normalized) = Ok capacity
    ∧ record_of normalized
      = Ok {| name := or_str (name_cell normalized) "Unnamed Turbine";
              status := PyStr.title (or_str (status_cell normalized) "Unknown");
              latitude := lat; longitude := lng; capacity_mw := capacity;
              location := py_or (location_cell normalized) None |}.
Proof.
  destruct (to_float_returns (lat_cell normalized)) as [lat Hlat].
  destruct (to_float_returns (lng_cell normalized)) as [lng Hlng].
  destruct (to_float_returns (capacity_cell normalized)) as [cap Hcap].
  exists lat, lng, cap. unfold record_of. by rewrite Hlat, Hlng, Hcap.
Qed.

Lemma all_blank_lookup (normalized : gmap string string) (k : string) :
  all_blank normalized → blank (normalized !! k).
Proof.
  intros Hn. destruct (normalized !! k) as [v|] eqn:Hk; [|by left].
  right. by rewrite (Hn k v Hk).
Qed.

(** A row without values gives the default record. *)
Lemma record_of_all_blank (normalized : gmap string string) :
  all_blank normalized → record_of normalized = Ok default_record.
Proof.
  intros Hn.
  assert (∀ k, blank (normalized !! k)) as Hk
    by (intros k; by apply all_blank_lookup).
  assert (blank (name_cell normalized)) as Hname
    by (unfold name_cell; auto using py_or_blank_blank).
  assert (blank (status_cell normalized)) as Hstatus
    by (unfold status_cell; auto using py_or_blank_blank).
  assert (blank (lat_cell normalized)) as Hlat
    by (unfold lat_cell; auto using py_or_blank_blank).
  assert (blank (lng_cell normalized)) as Hlng
    by (unfold lng_cell; auto using py_or_blank_blank).
  assert (blank (capacity_cell normalized)) as Hcap
    by (unfold capacity_cell; auto using py_or_blank_blank).
  assert (blank (location_cell normalized)) as Hloc
    by (unfold location_cell; auto using py_or_blank_blank).
  unfold record_of.
  rewrite !to_float_blank by done. cbn.
  rewrite !or_str_blank by done. by rewrite (py_or_blank _ None Hloc).
Qed.

(** [normalize] returns when every cell can be stripped, and keeps what
    holds of the stripped cells. *)
Lemma normalize_returns (Q : string → Prop)
    (items : Csv.dict (option string) Csv.cell) (acc : gmap string string) :
  Forall (λ kv, ∃ s, strip_cell kv.2 = Ok s ∧ Q s) items →
  map_Forall (λ _ v, Q v) acc →
  ∃ m, normalize items acc = Ok m ∧ map_Forall (λ _ v, Q v) m.
Proof.
  intros Hitems. revert acc.
  induction Hitems as [|[k v] items (s & Hs & HQ) _ IH]; intros acc Hacc.
  - by exists acc.
  - cbn [normalize]. cbn in Hs. rewrite Hs. cbn.
    apply IH. by apply map_Forall_insert_2.
Qed.

(** The loop over the rows: the records come one per row, in order, after
    those already collected. *)
Lemma parse_rows_returns
    (reader : Csv.stream (Csv.dict (option string) Csv.cell))
    (rows : list (Csv.dict (option string) Csv.cell))
    (records new : list Turbine) :
  Csv.collect reader = Ok rows →
  Forall2 (λ row t, parse_row row = Ok t) rows new →
  parse_rows reader records = Ok (records ++ new).
Proof.
  revert rows records new.
  induction reader as [|row rest IH|e]; intros rows records new Hc Hrows.
  - simplify_eq/=. apply Forall2_nil_inv_l in Hrows as ->.
    by rewrite app_nil_r.
  - cbn in Hc. destruct (Csv.collect rest) as [rows'|] eqn:Hrest; [|done].
    simplify_eq/=. apply Forall2_cons_inv_l in Hrows as (t & new' & Ht & Hnew & ->).
    rewrite Ht. cbn. rewrite (IH rows' _ new' eq_refl Hnew).
    by rewrite <-app_assoc.
  - done.
Qed.

Lemma parse_rows_inv
    (reader : Csv.stream (Csv.dict (option string) Csv.cell))
    (records result : list Turbine) :
  parse_rows reader records = Ok result →
  ∃ rows new,
    Csv.collect reader = Ok rows
    ∧ Forall2 (λ row t, parse_row row = Ok t) rows new
    ∧ result = (records ++ new).
Proof.
  revert records result.
  induction reader as [|row rest IH|e]; intros records result Hp.
  - simplify_eq/=. exists [], []. by rewrite app_nil_r.
  - cbn in Hp. destruct (parse_row row) as [t|] eqn:Ht; [|done]. cbn in Hp.
    apply IH in Hp as (rows & new & Hc & Hnew & ->).
    exists (row :: rows), (t :: new). cbn. rewrite Hc.
    split_and!; [done|by constructor|by rewrite <-app_assoc].
  - done.
Qed.

End ParserFacts.

(** ** Rows *)

Lemma dict_set_Forall {K V} `{EqDecision K} (P : K * V → Prop)
    (k : K) (v : V) (d : Csv.dict K V) :
  P (k, v) → Forall P d → Forall P (Csv.dict_set k v d).
Proof.
  intros Hkv Hd. induction Hd as [|[k' v'] d Hk' Hd IH]; cbn.
  - by constructor.
  - case_decide; constructor; auto.
Qed.

Lemma dict_zip_strippable (Q : string → Prop)
    (d : Csv.dict (option string) Csv.cell) (fieldnames row : list string) :
  Forall (strippable Q) d →
  Forall (λ c, Q (PyStr.strip c)) row →
  Forall (strippable Q) (Csv.dict_zip d fieldnames row).
Proof.
  intros Hd Hrow. revert d fieldnames Hd.
  induction Hrow as [|c row Hc Hrow IH]; intros d [|k fieldnames] Hd; try done.
  cbn. apply IH, dict_set_Forall; [|done]. by exists (PyStr.strip c).
Qed.

Lemma restval_strippable (Q : string → Prop)
    (keys : list string) (d : Csv.dict (option string) Csv.cell) :
  Q "" →
  Forall (strippable Q) d →
  Forall (strippable Q)
    (foldl (λ d key, Csv.dict_set (Some key) Csv.CNone d) d keys).
Proof.
  intros HQ. revert d. induction keys as [|k keys IH]; intros d Hd; [done|].
  cbn. apply IH, dict_set_Forall; [|done]. by exists "".
Qed.

Lemma dict_row_strippable (Q : string → Prop) (fieldnames row : list string) :
  length row ≤ length fieldnames →
  Q "" →
  Forall (λ c, Q (PyStr.strip c)) row →
  Forall (strippable Q) (Csv.dict_row fieldnames row).
Proof.
  intros Hlen HQ Hrow. unfold Csv.dict_row.
  destruct (length fieldnames <? length row) eqn:Hlt.
  { apply Nat.ltb_lt in Hlt. lia. }
  by apply restval_strippable, dict_zip_strippable.
Qed.

Lemma collect_dict_rows (fieldnames : list string)
    (s : Csv.stream (list string)) (rows : list (list string)) :
  Csv.collect s = Ok rows →
  Csv.collect (Csv.dict_rows fieldnames s)
  = Ok (Csv.dict_row fieldnames <$> filter (λ row, row ≠ []) rows).
Proof.
  revert rows. induction s as [|row rest IH|e]; intros rows Hc.
  - by simplify_eq/=.
  - cbn in Hc. destruct (Csv.collect rest) as [rows'|] eqn:Hrest; [|done].
    simplify_eq/=. specialize (IH rows' eq_refl).
    destruct row as [|c row].
    + by rewrite filter_cons_False by (by intros []).
    + rewrite filter_cons_True by done. cbn [Csv.collect]. by rewrite IH.
  - done.
Qed.

Lemma collect_DictReader (csv_text : string)
    (fieldnames : list string) (rows : list (list string)) :
  Csv.collect (Csv.reader csv_text) = Ok (fieldnames :: rows) →
  Csv.collect (Csv.DictReader csv_text)
  = Ok (Csv.dict_row fieldnames <$> filter (λ row, row ≠ []) rows).
Proof.
  unfold Csv.DictReader. destruct (Csv.reader csv_text) as [|h rest|e]; try done.
  cbn. destruct (Csv.collect rest) as [rows'|] eqn:Hrest; [|done].
  intros [= -> ->]. by apply collect_dict_rows.
Qed.

Section RowParsing.
Context {RT : Runtime}.

(** A row that is no longer than the header is parsed. *)
Lemma parse_row_returns (fieldnames row : list string) :
  length row ≤ length fieldnames →
  ∃ t, parse_row (Csv.dict_row fieldnames row) = Ok t
       ∧ (Forall (λ c, PyStr.strip c = "") row → t = default_record).
Proof.
  intros Hlen. unfold parse_row.
  destruct (normalize_returns (λ _, True) (Csv.dict_row fieldnames row) ∅)
    as (m & Hm & _).
  { apply dict_row_strippable; [lia|exact I|]. by apply Forall_true. }
  { apply map_Forall_empty. }
  rewrite Hm. cbn.
  destruct (record_of_returns m) as (lat & lng & cap & _ & _ & _ & Hr).
  eexists. split; [exact Hr|]. intros Hblank.
  destruct (normalize_returns (λ v, v = "") (Csv.dict_row fieldnames row) ∅)
    as (m' & Hm' & Hall).
  { by apply dict_row_strippable. }
  { apply map_Forall_empty. }
  rewrite Hm in Hm'. injection Hm' as <-.
  rewrite (record_of_all_blank m Hall) in Hr. congruence.
Qed.

End RowParsing.

Section ParserProperties.
Context {RT : Runtime}.

Lemma to_float_unparsable_None (x : option string) :
  unparsable x → to_float x = Ok None.
Proof.
  intros [Hx | (s & e & -> & Hs)];
    eauto using to_float_absent_token, to_float_unparsable.
Qed.

Lemma parse_row_inv (row : Csv.dict (option string) Csv.cell) (t : Turbine) :
  parse_row row = Ok t →
  ∃ normalized, normalize row ∅ = Ok normalized ∧ record_of normalized = Ok t.
Proof.
  unfold parse_row. destruct (normalize row ∅) as [m|] eqn:Hm; [|done].
  cbn. by exists m.
Qed.

Lemma parse_turbine_csv_each_row (P : gmap string string → Turbine → Prop)
    (csv_text : string) (records : list Turbine) :
  (∀ normalized t, record_of normalized = Ok t → P normalized t) →
  parse_turbine_csv csv_text = Ok records →
  each_row csv_text records P.
Proof.
  intros HP (rows & new & Hc & Hnew & ->)%parse_rows_inv.
  exists rows. split; [done|]. cbn.
  eapply Forall2_impl; [exact Hnew|].
  intros row t (m & Hm & Hr)%parse_row_inv. exists m. auto.
Qed.

Lemma record_of_numeric_absent (normalized : gmap string string) :
  ∃ t, record_of normalized = Ok t ∧ numeric_absent normalized t.
Proof.
  destruct (record_of_returns normalized)
    as (lat & lng & cap & Hlat & Hlng & Hcap & Hr).
  eexists. split; [exact Hr|]. unfold numeric_absent. cbn.
  split_and!; try done; intros Hx%to_float_unparsable_None; congruence.
Qed.

(** C2: a numeric field is filled by [to_float] from its cell, and
    [to_float] gives the absent value [None], not zero and not an error,
    when the cell is missing, empty, [NA] or [N/A], and when [float]
    rejects its text.  This holds of the record of any row, and so of
    every record the parser returns. *)
Theorem numeric_cells_absent :
  (∀ normalized, ∃ t,
     record_of normalized = Ok t ∧ numeric_absent normalized t)
  ∧ (∀ csv_text records,
       parse_turbine_csv csv_text = Ok records →
       each_row csv_text records numeric_absent).
Proof.
  split; [apply record_of_numeric_absent|].
  intros csv_text records. apply parse_turbine_csv_each_row.
  intros m t Hr. destruct (record_of_numeric_absent m) as (t' & Hr' & Hn).
  congruence.
Qed.


(** C4: when none of [name], [turbine], [id], [identifier] has a value in
    a row, its record is named [Unnamed Turbine]; no record has an empty
    name. *)
Theorem name_never_empty (csv_text : string) (records : list Turbine) :
  parse_turbine_csv csv_text = Ok records →
  each_row csv_text records (λ normalized t,
    name t ≠ ""
    ∧ (Forall (λ k, blank (normalized !! k))
         ["name"; "turbine"; "id"; "identifier"] →
       name t = "Unnamed Turbine")).
Proof.
  apply parse_turbine_csv_each_row. intros m t Hr.
  destruct (record_of_returns m) as (lat & lng & cap & _ & _ & _ & Hr').
  rewrite Hr' in Hr. injection Hr as <-. cbn. split.
  - by apply or_str_nonempty.
  - intros Hall. rewrite !Forall_cons in Hall.
    destruct Hall as (Hn & Ht & Hi & Hd & _).
    apply or_str_blank. unfold name_cell. auto using py_or_blank_blank.
Qed.

(** C5, as the code has it: when the reader splits the text into a header
    and rows none of which is longer than the header, every row that is
    not blank gives exactly one record, in order; a row of empty cells
    gives the default record. *)
Theorem one_record_per_row (csv_text : string)
    (fieldnames : list string) (rows : list (list string)) :
  Csv.collect (Csv.reader csv_text) = Ok (fieldnames :: rows) →
  Forall (λ row, length row ≤ length fieldnames) rows →
  ∃ records,
    parse_turbine_csv csv_text = Ok records
    ∧ Forall2 (λ row t,
         parse_row (Csv.dict_row fieldnames row) = Ok t
         ∧ (Forall (λ c, PyStr.strip c = "") row → t = default_record))
        (filter (λ row, row ≠ []) rows) records.
Proof.
  intros Hc%collect_DictReader Hlen.
  assert (∃ records,
    Forall2 (λ row t,
         parse_row (Csv.dict_row fieldnames row) = Ok t
         ∧ (Forall (λ c, PyStr.strip c = "") row → t = default_record))
        (filter (λ row, row ≠ []) rows) records) as [records Hrec].
  { assert (Forall (λ row, length row ≤ length fieldnames)
              (filter (λ row, row ≠ []) rows)) as Hlen'.
    { rewrite Forall_forall in Hlen |- *.
      intros row [_ Hin]%list_elem_of_filter. auto. }
    revert Hlen'. generalize (filter (λ row, row ≠ []) rows). intros l Hl.
    induction Hl as [|row l Hrow _ [records IH]]; [by exists []|].
    destruct (parse_row_returns fieldnames row Hrow) as (t & Ht).
    exists (t :: records). by constructor. }
  exists records. split; [|done].
  apply (parse_rows_returns _ _ [] records Hc).
  apply Forall2_fmap_l. eapply Forall2_impl; [exact Hrec|]. by intros ?? [??].
Qed.

End ParserProperties.

(** ** The store *)

(** Replacing an element by one that [P] treats alike moves no match. *)
Lemma list_find_insert_alike {A} (P : A → Prop) `{∀ x, Decision (P x)}
    (l : list A) (i : nat) (x y : A) :
  l !! i = Some x → (P x ↔ P y) →
  list_find P (<[i:=y]> l)
  = (λ jz, (jz.1, if decide (jz.1 = i) then y else jz.2)) <$> list_find P l.
Proof.
  revert i. induction l as [|a l IH]; intros i Hi Hxy; [done|].
  destruct i as [|i]; simplify_eq/=.
  - destruct (decide (P x)), (decide (P y)); try tauto; try done.
    destruct (list_find P l) as [[j z]|]; done.
  - case_decide; [done|]. rewrite (IH i Hi Hxy).
    destruct (list_find P l) as [[j z]|]; [|done]. cbn.
    do 2 f_equal. repeat case_decide; done || lia.
Qed.

Section StoreFacts.
Context {RT : Runtime}.
Implicit Types (c : Collection) (t : Turbine) (d e : Document).
Implicit Types (n m : string) (ts : list Turbine).

Lemma names_elem n c : n ∈ names c ↔ ∃ d, d ∈ c ∧ name (data d) = n.
Proof.
  unfold names. rewrite elem_of_list_to_set, list_elem_of_fmap. split.
  - intros (d & -> & Hd). by exists d.
  - intros (d & Hd & <-). by exists d.
Qed.

Lemma find_one_name_None n c : find_one_name n c = None ↔ n ∉ names c.
Proof.
  unfold find_one_name. rewrite fmap_None, list_find_None, Forall_forall.
  rewrite names_elem. split.
  - intros Hc (d & Hd & Hn). by apply (Hc d).
  - intros Hn d Hd Hname. apply Hn. by exists d.
Qed.

Lemma find_one_name_Some n c d :
  find_one_name n c = Some d → n ∈ names c ∧ name (data d) = n.
Proof.
  unfold find_one_name. intros ([i d'] & Hf & ->)%fmap_Some.
  apply list_find_Some in Hf as (Hi & Hn & _). split; [|done].
  apply names_elem. exists d'. eauto using list_elem_of_lookup_2.
Qed.

(** With distinct identifiers, the update by [_id] lands on the document
    that was found by name. *)
Lemma update_one_id_found c n i e t :
  NoDup (_id <$> c) →
  list_find (λ d, name (data d) = n) c = Some (i, e) →
  update_one_id (_id e) t c = <[i := {| _id := _id e; data := t |}]> c.
Proof.
  intros Hnd (Hi & _ & _)%list_find_Some. unfold update_one_id.
  destruct (list_find (λ d, _id d = _id e) c) as [[j d]|] eqn:Hj.
  - apply list_find_Some in Hj as (Hj & Hid & _).
    assert (i = j) as <-.
    { apply (NoDup_lookup (_id <$> c) i j (_id e) Hnd);
        rewrite list_lookup_fmap; [by rewrite Hi|by rewrite Hj, <-Hid]. }
    by simplify_eq.
  - apply list_find_None in Hj. rewrite Forall_forall in Hj.
    destruct (Hj e); eauto using list_elem_of_lookup_2.
Qed.

Lemma fresh_id_fresh c : fresh_id c ∉ _id <$> c.
Proof. apply max_list_not_elem_of_gt. unfold fresh_id. lia. Qed.

Lemma upsert_NoDup t c : NoDup (_id <$> c) → NoDup (_id <$> upsert t c).
Proof.
  intros Hnd. unfold upsert, find_one_name.
  destruct (list_find _ c) as [[i e]|] eqn:Hf; cbn.
  - rewrite (update_one_id_found c (name t) i e t Hnd Hf).
    apply list_find_Some in Hf as (Hi & _ & _).
    rewrite list_fmap_insert. cbn.
    rewrite list_insert_id; [done|]. by rewrite list_lookup_fmap, Hi.
  - rewrite fmap_app. apply NoDup_app. split_and!; [done| |apply NoDup_singleton].
    intros x Hx ->%list_elem_of_singleton. by apply (fresh_id_fresh c).
Qed.

(** After its turn a record is the one found under its name, in the
    document that bore the name before if there was one. *)
Lemma upsert_find_same t c :
  NoDup (_id <$> c) →
  ∃ d, find_one_name (name t) (upsert t c) = Some d
       ∧ data d = t
       ∧ ∀ e, find_one_name (name t) c = Some e → _id d = _id e.
Proof.
  intros Hnd. unfold upsert, find_one_name.
  destruct (list_find _ c) as [[i e]|] eqn:Hf; cbn.
  - rewrite (update_one_id_found c (name t) i e t Hnd Hf).
    pose proof Hf as (Hi & Hn & _)%list_find_Some.
    rewrite (list_find_insert_alike _ c i e) by done. rewrite Hf. cbn.
    rewrite decide_True by done. eexists. split_and!; [done..|].
    by intros e' [= <-].
  - rewrite list_find_app_r by done. cbn. rewrite decide_True by done. cbn.
    eexists. split_and!; done.
Qed.

(** The documents of the other names are found as before. *)
Lemma upsert_find_other t c m :
  NoDup (_id <$> c) → m ≠ name t →
  find_one_name m (upsert t c) = find_one_name m c.
Proof.
  intros Hnd Hm. unfold upsert.
  destruct (find_one_name (name t) c) as [e0|] eqn:He.
  - apply fmap_Some in He as ([i e] & Hf & ->). cbn.
    rewrite (update_one_id_found c (name t) i e t Hnd Hf).
    apply list_find_Some in Hf as (Hi & Hn & _).
    unfold find_one_name.
    rewrite (list_find_insert_alike _ c i e) by (cbn; done || split; congruence).
    destruct (list_find (λ d, name (data d) = m) c) as [[j z]|] eqn:Hj; [|done].
    cbn. case_decide as Hji; [|done]. subst j.
    apply list_find_Some in Hj as (Hj & ? & _). congruence.
  - unfold find_one_name. cbn.
    destruct (list_find (λ d, name (data d) = m) c) as [[j z]|] eqn:Hj.
    + by rewrite (list_find_app_l _ _ _ _ _ Hj).
    + rewrite list_find_app_r by done. cbn. by rewrite decide_False.
Qed.

Lemma upsert_names t c :
  NoDup (_id <$> c) → names (upsert t c) = {[name t]} ∪ names c.
Proof.
  intros Hnd. apply set_eq. intros m.
  rewrite elem_of_union, elem_of_singleton.
  destruct (decide (m = name t)) as [->|Hm].
  - split; [auto|]. intros _.
    destruct (upsert_find_same t c Hnd) as (d & Hd & _).
    by apply find_one_name_Some in Hd as [? _].
  - pose proof (find_one_name_None m (upsert t c)) as H1.
    pose proof (find_one_name_None m c) as H2.
    rewrite (upsert_find_other t c m Hnd Hm) in H1.
    split.
    + intros Hin. right. destruct (decide (m ∈ names c)); [done|].
      apply H2 in n. apply H1 in n. done.
    + intros [?|Hin]; [done|]. destruct (decide (m ∈ names (upsert t c))); [done|].
      apply H1 in n. apply H2 in n. done.
Qed.

(** The whole loop on the collection. *)
Lemma reconcile_NoDup ts c :
  NoDup (_id <$> c) → NoDup (_id <$> foldl (λ c t, upsert t c) c ts).
Proof.
  revert c. induction ts as [|t ts IH]; intros c Hnd; [done|].
  cbn. by apply IH, upsert_NoDup.
Qed.

Lemma reconcile_find_untouched ts c n d :
  NoDup (_id <$> c) →
  n ∉ name <$> ts →
  find_one_name n c = Some d →
  find_one_name n (foldl (λ c t, upsert t c) c ts) = Some d.
Proof.
  revert c. induction ts as [|t ts IH]; intros c Hnd Hn Hd; [done|].
  rewrite fmap_cons, not_elem_of_cons in Hn. destruct Hn as [Hnt Hn].
  cbn. apply IH; [by apply upsert_NoDup|done|].
  by rewrite upsert_find_other.
Qed.

Lemma reconcile_last_occurrence ts c k t :
  NoDup (_id <$> c) →
  ts !! k = Some t →
  name t ∉ name <$> drop (S k) ts →
  ∃ d, find_one_name (name t) (foldl (λ c t, upsert t c) c ts) = Some d
       ∧ data d = t.
Proof.
  intros Hnd Hk Hlast.
  rewrite <-(take_drop_middle ts k t Hk), foldl_app. cbn.
  pose proof (reconcile_NoDup (take k ts) c Hnd) as Hnd1.
  destruct (upsert_find_same t _ Hnd1) as (d & Hd & Hdata & _).
  exists d. split; [|done].
  apply reconcile_find_untouched; [by apply upsert_NoDup|done..].
Qed.

Lemma reconcile_same_document ts c n e :
  NoDup (_id <$> c) →
  find_one_name n c = Some e →
  ∃ d, find_one_name n (foldl (λ c t, upsert t c) c ts) = Some d
       ∧ _id d = _id e.
Proof.
  revert c e. induction ts as [|t ts IH]; intros c e Hnd He; [by exists e|].
  cbn. pose proof (upsert_NoDup t c Hnd) as Hnd'.
  destruct (decide (n = name t)) as [->|Hn].
  - destruct (upsert_find_same t c Hnd) as (d & Hd & _ & Hid).
    destruct (IH _ d Hnd' Hd) as (d' & Hd' & Hid').
    exists d'. split; [done|]. rewrite Hid'. by apply Hid.
  - apply IH; [done|]. by rewrite upsert_find_other.
Qed.

End StoreFacts.

(** ** The counts of the spec *)

Section CountFacts.
Context {RT : Runtime}.

(** Every record is an insert or an update. *)
Lemma spec_counts_total (known : gset string) (ts : list Turbine) :
  (spec_counts known ts).1 + (spec_counts known ts).2 = length ts.
Proof.
  revert known. induction ts as [|t ts IH]; intros known; [done|].
  cbn [spec_counts]. case_decide.
  - specialize (IH known). destruct (spec_counts known ts). cbn in *. lia.
  - specialize (IH ({[name t]} ∪ known)).
    destruct (spec_counts ({[name t]} ∪ known) ts). cbn in *. lia.
Qed.

(** The inserts are the distinct names that were not known. *)
Lemma spec_counts_inserted (known : gset string) (ts : list Turbine) :
  (spec_counts known ts).1 = size (list_to_set (name <$> ts) ∖ known).
Proof.
  revert known. induction ts as [|t ts IH]; intros known.
  - cbn. by rewrite difference_disjoint_L, size_empty by apply disjoint_empty_l.
  - cbn [spec_counts]. rewrite fmap_cons, list_to_set_cons.
    set (rest := list_to_set (name <$> ts) : gset string) in *.
    case_decide as Hk.
    + specialize (IH known). destruct (spec_counts known ts) as [i u].
      cbn in *. rewrite IH. f_equal. apply set_eq. intros n.
      rewrite !elem_of_difference, elem_of_union, elem_of_singleton.
      split; [tauto|]. intros [[->|Hn] Hnk]; tauto.
    + specialize (IH ({[name t]} ∪ known)).
      destruct (spec_counts ({[name t]} ∪ known) ts) as [i u]. cbn in *.
      assert (({[name t]} ∪ rest) ∖ known
              = {[name t]} ∪ rest ∖ ({[name t]} ∪ known)) as ->.
      { apply set_eq. intros n.
        rewrite !elem_of_union, !elem_of_difference, !elem_of_union,
          !elem_of_singleton.
        destruct (decide (n = name t)) as [->|]; tauto. }
      rewrite size_union, size_singleton, IH; [done|].
      apply disjoint_singleton_l.
      rewrite elem_of_difference, elem_of_union, elem_of_singleton. tauto.
Qed.

End CountFacts.

(** ** The handlers *)

Section HandlerFacts.
Context {RT : Runtime} {NW : Network}.
Implicit Types (w : World) (c : Collection) (ts : list Turbine).

(** One turn of the loop. *)
Lemma upsert_all_cons t ts i u w c :
  db w = Some c →
  upsert_all (t :: ts) i u w
  = let w' := {| db := Some (upsert t c); fetched := fetched w |} in
    match find_one_name (name t) c with
    | Some _ => upsert_all ts i (S u) w'
    | None => upsert_all ts (S i) u w'
    end.
Proof.
  intros Hdb. cbn [upsert_all].
  unfold mbind, IO_bind, find_one, update_one, create_document, on_collection.
  rewrite Hdb. unfold upsert.
  by destruct (find_one_name (name t) c) as [e|].
Qed.

(** The loop returns, with every record counted once. *)
Lemma upsert_all_returns ts i u w c :
  db w = Some c →
  ∃ i' u',
    upsert_all ts i u w
    = (Ok (i', u'),
       {| db := Some (foldl (λ c t, upsert t c) c ts); fetched := fetched w |})
    ∧ i' + u' = i + u + length ts.
Proof.
  revert i u w c. induction ts as [|t ts IH]; intros i u w c Hdb.
  - exists i, u. destruct w; simplify_eq/=. split; [done|lia].
  - rewrite (upsert_all_cons t ts i u w c Hdb). cbn zeta.
    destruct (find_one_name (name t) c).
    + destruct (IH i (S u) {| db := Some (upsert t c); fetched := fetched w |}
                  (upsert t c) eq_refl) as (i' & u' & -> & Hsum).
      exists i', u'. split; [done|]. cbn. lia.
    + destruct (IH (S i) u {| db := Some (upsert t c); fetched := fetched w |}
                  (upsert t c) eq_refl) as (i' & u' & -> & Hsum).
      exists i', u'. split; [done|]. cbn. lia.
Qed.

(** The counts of the loop are those of the spec. *)
Lemma upsert_all_counts ts i u w c :
  db w = Some c →
  NoDup (_id <$> c) →
  upsert_all ts i u w
  = (Ok (i + (spec_counts (names c) ts).1, u + (spec_counts (names c) ts).2),
     {| db := Some (foldl (λ c t, upsert t c) c ts); fetched := fetched w |}).
Proof.
  revert i u w c. induction ts as [|t ts IH]; intros i u w c Hdb Hnd.
  - destruct w; simplify_eq/=. by rewrite !Nat.add_0_r.
  - rewrite (upsert_all_cons t ts i u w c Hdb). cbn zeta.
    pose proof (upsert_NoDup t c Hnd) as Hnd'.
    pose proof (upsert_names t c Hnd) as Hnames.
    cbn [spec_counts].
    destruct (find_one_name (name t) c) as [e|] eqn:He.
    + apply find_one_name_Some in He as [Hin _].
      rewrite decide_True by done.
      rewrite (IH i (S u) {| db := Some (upsert t c); fetched := fetched w |}
                 (upsert t c) eq_refl Hnd'). cbn.
      assert (names (upsert t c) = names c) as ->.
      { rewrite Hnames. apply subseteq_union_1_L.
        by apply singleton_subseteq_l. }
      destruct (spec_counts (names c) ts) as [i' u']. cbn.
      do 2 f_equal. f_equal; lia.
    + apply find_one_name_None in He.
      rewrite decide_False by done.
      rewrite (IH (S i) u {| db := Some (upsert t c); fetched := fetched w |}
                 (upsert t c) eq_refl Hnd'). cbn.
      rewrite Hnames.
      destruct (spec_counts ({[name t]} ∪ names c) ts) as [i' u']. cbn.
      do 2 f_equal. f_equal; lia.
Qed.

(** Fetching leaves the store alone. *)
Lemma fetch_google_sheet_csv_db sheet_url w :
  db (fetch_google_sheet_csv sheet_url w).2 = db w.
Proof.
  unfold fetch_google_sheet_csv, mbind, IO_bind, lift, get, raise, mret, IO_ret.
  destruct (export_url sheet_url) as [url|]; [|done]. cbn.
  destruct (requests_get url) as [resp|]; [|done]. cbn.
  by case_decide.
Qed.

Lemma find_no_filter c : find [] c = c.
Proof.
  unfold find. induction c as [|d c IH]; [done|].
  rewrite filter_cons_True by done. by rewrite IH.
Qed.

End HandlerFacts.

(** ** What the handlers guarantee *)

Section HandlerProperties.
Context {RT : Runtime} {NW : Network}.
Implicit Types (w : World) (c : Collection) (ts : list Turbine).

(** C1: the loop looks each record up by its name, in input order.  A
    record whose name is neither stored nor met earlier in the call counts
    as an insert, every other record as an update ([spec_counts]); the
    document found under the name of a record after the loop carries all
    the data fields of the last record of that name; and a name that was
    stored before is still found in the same document.  The store keeps
    its identifiers distinct. *)
Theorem last_write_wins w c ts :
  db w = Some c →
  NoDup (_id <$> c) →
  ∃ c',
    upsert_all ts 0 0 w
    = (Ok (spec_counts (names c) ts),
       {| db := Some c'; fetched := fetched w |})
    ∧ (∀ k t, ts !! k = Some t → name t ∉ name <$> drop (S k) ts →
         ∃ d, find_one_name (name t) c' = Some d ∧ data d = t)
    ∧ (∀ n e, find_one_name n c = Some e →
         ∃ d, find_one_name n c' = Some d ∧ _id d = _id e).
Proof.
  intros Hdb Hnd. exists (foldl (λ c t, upsert t c) c ts). split_and!.
  - rewrite (upsert_all_counts ts 0 0 w c Hdb Hnd).
    by destruct (spec_counts (names c) ts).
  - intros k t Hk Hlast. by apply (reconcile_last_occurrence ts c k t).
  - intros n e He. by apply reconcile_same_document.
Qed.

(** C6: a URL that contains the marker [export?format=csv] is resolved to
    itself, and it is the URL that is fetched. *)
Theorem export_url_unchanged (sheet_url : string) :
  PyStr.contains marker sheet_url = true →
  export_url sheet_url = Ok sheet_url
  ∧ ∀ w, fetched (fetch_google_sheet_csv sheet_url w).2
         = fetched w ++ [sheet_url].
Proof.
  intros Hm. split; [by apply export_url_marked|]. intros w.
  unfold fetch_google_sheet_csv, mbind, IO_bind, lift, get, raise, mret, IO_ret.
  rewrite (export_url_marked sheet_url Hm). cbn.
  destruct (requests_get sheet_url) as [resp|]; [|done]. cbn.
  by case_decide.
Qed.

(** C7, as the code has it: a URL that contains neither the marker
    [export?format=csv] nor the delimiter [/d/] is refused with the client
    error of an invalid URL, and nothing is fetched. *)
Theorem export_url_invalid (sheet_url : string) :
  PyStr.contains marker sheet_url = false →
  PyStr.contains "/d/" sheet_url = false →
  export_url sheet_url = Raise (HTTPException 400 "Invalid Google Sheets URL")
  ∧ ∀ w, fetch_google_sheet_csv sheet_url w
         = (Raise (HTTPException 400 "Invalid Google Sheets URL"), w).
Proof.
  intros Hm Hd.
  assert (export_url sheet_url
          = Raise (HTTPException 400 "Invalid Google Sheets URL")) as Hu.
  { unfold export_url. rewrite Hm, (split_absent "/d/" sheet_url Hd). done. }
  split; [done|]. intros w.
  unfold fetch_google_sheet_csv, mbind, IO_bind, lift. by rewrite Hu.
Qed.

(** C8: without a database the import fails with the server error before
    anything else happens: nothing is fetched and the world is as it
    was. *)
Theorem import_needs_database (sheet_url : string) w :
  db w = None →
  import_turbines sheet_url w
  = (Raise (HTTPException 500 "Database not configured"), w).
Proof.
  intros Hdb. unfold import_turbines, mbind, IO_bind, get_db.
  by rewrite Hdb.
Qed.

(** C9: when the import returns, the inserted and the updated records
    together are the records the parser gave. *)
Theorem every_record_counted (sheet_url : string) w w' (r : ImportResult) :
  import_turbines sheet_url w = (Ok r, w') →
  ∃ csv_text turbines w1,
    fetch_google_sheet_csv sheet_url w = (Ok csv_text, w1)
    ∧ parse_turbine_csv csv_text = Ok turbines
    ∧ inserted r + updated r = length turbines.
Proof.
  unfold import_turbines, mbind at 1, IO_bind at 1, get_db.
  destruct (db w) as [c|] eqn:Hdb; [|done].
  unfold mbind at 1, IO_bind at 1.
  pose proof (fetch_google_sheet_csv_db sheet_url w) as Hdb1.
  destruct (fetch_google_sheet_csv sheet_url w) as [[csv_text|] w1]; [|done].
  cbn in Hdb1. rewrite Hdb in Hdb1.
  unfold mbind at 1, IO_bind at 1, lift.
  destruct (parse_turbine_csv csv_text) as [turbines|] eqn:Hparse; [|done].
  unfold mbind, IO_bind.
  destruct (upsert_all_returns turbines 0 0 w1 c Hdb1) as (i & u & -> & Hsum).
  cbn. intros [= <- <-]. exists csv_text, turbines, w1. cbn.
  split_and!; [done..|lia].
Qed.

(** C10: an empty [status] lists what no [status] lists, every stored
    document. *)
Theorem empty_status_lists_all w c :
  db w = Some c →
  list_turbines (Some "") w = list_turbines None w
  ∧ list_turbines None w = (Ok (serialize_doc <$> c), w).
Proof.
  intros Hdb. split; [done|].
  unfold list_turbines, mbind, IO_bind, get_db, get_documents, on_collection.
  rewrite Hdb. cbn. rewrite Hdb, find_no_filter. by destruct w; simplify_eq/=.
Qed.

End HandlerProperties.

(** * Further properties *)

(** ** Splitting a text *)

Lemma append_cons (c : ascii) (s t : string) :
  String c s +:+ t = String c (s +:+ t).
Proof. reflexivity. Qed.

Lemma append_assoc (s1 s2 s3 : string) :
  (s1 +:+ s2) +:+ s3 = s1 +:+ s2 +:+ s3.
Proof. induction s1 as [|c s1 IH]; [done|]. exact (f_equal (String c) IH). Qed.

Lemma append_nil_r (s : string) : s +:+ "" = s.
Proof. induction s as [|c s IH]; [done|]. exact (f_equal (String c) IH). Qed.

Lemma append_length (s1 s2 : string) :
  String.length (s1 +:+ s2) = String.length s1 + String.length s2.
Proof. induction s1 as [|c s1 IH]; [done|]. exact (f_equal S IH). Qed.

Lemma startswith_append (sep u v : string) :
  PyStr.startswith sep u = true → PyStr.startswith sep (u +:+ v) = true.
Proof.
  revert u. induction sep as [|a sep IH]; intros [|b u]; try done.
  rewrite append_cons. cbn. intros [-> Hs]%andb_true_iff. by apply IH.
Qed.

Lemma startswith_self (sep v : string) : PyStr.startswith sep (sep +:+ v) = true.
Proof.
  induction sep as [|a sep IH]; [done|]. rewrite append_cons. cbn.
  by rewrite Ascii.eqb_refl, IH.
Qed.

(** What lies beyond the length of the separator does not matter. *)
Lemma startswith_append_long (sep u v : string) :
  String.length sep ≤ String.length u →
  PyStr.startswith sep (u +:+ v) = PyStr.startswith sep u.
Proof.
  revert u. induction sep as [|a sep IH]; intros [|b u] Hlen; try done.
  - cbn in Hlen. lia.
  - rewrite append_cons. cbn in *. rewrite IH by lia. done.
Qed.

Lemma contains_append_l (sub s1 s2 : string) :
  PyStr.contains sub s1 = true → PyStr.contains sub (s1 +:+ s2) = true.
Proof.
  induction s1 as [|c s1 IH].
  - cbn. rewrite orb_false_r. intros Hs. apply contains_prefix.
    by apply (startswith_append sub "" s2).
  - cbn [PyStr.contains]. intros [Hs|Hc]%orb_true_iff.
    + apply contains_prefix. by apply (startswith_append sub (String c s1)).
    + apply (contains_cons sub c (s1 +:+ s2)). auto.
Qed.

(** The characters of a separator just matched are dropped. *)
Lemma split_from_skip (sep x cur b : string) :
  PyStr.split_from sep (String.length x) cur (x +:+ b)
  = PyStr.split_from sep 0 cur b.
Proof. induction x as [|c x IH]; [done|]. exact IH. Qed.

Lemma rev_cons_append (c : ascii) (cur s : string) :
  String.rev (String c cur) +:+ s = String.rev cur +:+ String c s.
Proof. unfold String.rev. cbn. by rewrite !rev_app_append. Qed.

(** The first piece ends where the separator first occurs: the text
    [a ++ sep ++ b], in which no occurrence of [sep] starts inside [a], is
    split into [a] and the pieces of [b]. *)
Lemma split_from_first (sep0 : string) (l : ascii) (a b cur : string) :
  let sep := sep0 +:+ String l "" in
  PyStr.contains sep (a +:+ sep0) = false →
  PyStr.split_from sep 0 cur (a +:+ sep +:+ b)
  = (String.rev cur +:+ a) :: PyStr.split_from sep 0 "" b.
Proof.
  intros sep. revert cur. induction a as [|c a IH]; intros cur Hc.
  - assert (∃ c x, sep = String c x) as (c & x & Hsep).
    { subst sep. destruct sep0; cbn; eauto. }
    pose proof (startswith_self sep b) as Hs.
    change ("" +:+ sep +:+ b) with (sep +:+ b).
    rewrite Hsep in Hs |- *. rewrite append_cons in Hs |- *.
    cbn [PyStr.split_from]. rewrite Hs. rewrite append_nil_r. f_equal.
    cbn. rewrite Nat.sub_0_r.
    apply (split_from_skip (String c x) x "" b).
  - apply contains_false_inv in Hc as [Hs Hc].
    change (String c a +:+ sep +:+ b) with (String c (a +:+ sep +:+ b)).
    cbn [PyStr.split_from].
    assert (PyStr.startswith sep (String c (a +:+ sep +:+ b)) = false) as ->.
    { assert (String c (a +:+ sep +:+ b)
              = (String c a +:+ sep0) +:+ (String l "" +:+ b)) as ->.
      { subst sep. by rewrite !append_assoc. }
      rewrite startswith_append_long; [exact Hs|].
      subst sep. rewrite !append_length. cbn. lia. }
    rewrite (IH _ Hc). by rewrite rev_cons_append.
Qed.

Lemma split_first (sep0 : string) (l : ascii) (a b : string) :
  PyStr.contains (sep0 +:+ String l "") (a +:+ sep0) = false →
  PyStr.split (sep0 +:+ String l "") (a +:+ (sep0 +:+ String l "") +:+ b)
  = a :: PyStr.split (sep0 +:+ String l "") b.
Proof. intros Hc. unfold PyStr.split. by rewrite split_from_first. Qed.

(** The piece being collected comes in front of the first piece. *)
Lemma split_from_cur (sep cur s : string) :
  PyStr.split_from sep 0 cur s
  = match PyStr.split_from sep 0 "" s with
    | x :: r => (String.rev cur +:+ x) :: r
    | [] => []
    end.
Proof.
  revert cur. induction s as [|c s IH]; intros cur.
  - cbn. by rewrite append_nil_r.
  - cbn [PyStr.split_from]. destruct (PyStr.startswith sep (String c s)).
    + by rewrite append_nil_r.
    + rewrite (IH (String c cur)), (IH (String c "")).
      destruct (PyStr.split_from sep 0 "" s) as [|x r]; [done|].
      by rewrite rev_cons_append.
Qed.

Lemma split_cons (sep : string) (c : ascii) (s : string) :
  PyStr.startswith sep (String c s) = false →
  PyStr.split sep (String c s)
  = match PyStr.split sep s with
    | x :: r => String c x :: r
    | [] => []
    end.
Proof.
  intros Hs. unfold PyStr.split. cbn [PyStr.split_from].
  by rewrite Hs, split_from_cur.
Qed.

Lemma split_match (sep : string) (c : ascii) (s : string) :
  PyStr.startswith sep (String c s) = true →
  ∃ r, PyStr.split sep (String c s) = "" :: r.
Proof.
  intros Hs. unfold PyStr.split. cbn [PyStr.split_from]. rewrite Hs. eauto.
Qed.

(** The first piece is a prefix of the text... *)
Lemma split_head_prefix (sep s x : string) (r : list string) :
  PyStr.split sep s = x :: r → ∃ y, s = x +:+ y.
Proof.
  revert x r. induction s as [|c s IH]; intros x r.
  - intros [= <- <-]. by exists "".
  - destruct (PyStr.startswith sep (String c s)) eqn:Hs.
    + destruct (split_match sep c s Hs) as [r' ->]. intros [= <- <-].
      by exists (String c s).
    + rewrite (split_cons sep c s Hs).
      destruct (PyStr.split sep s) as [|x' r'] eqn:Hx; [done|].
      intros [= <- <-]. destruct (IH x' r' eq_refl) as [y ->]. by exists y.
Qed.

(** ... in which the separator does not occur. *)
Lemma split_head_free (sep s x : string) (r : list string) :
  sep ≠ "" →
  PyStr.split sep s = x :: r → PyStr.contains sep x = false.
Proof.
  intros Hsep. revert x r. induction s as [|c s IH]; intros x r.
  - intros [= <- <-]. by destruct sep.
  - destruct (PyStr.startswith sep (String c s)) eqn:Hs.
    + destruct (split_match sep c s Hs) as [r' ->]. intros [= <- <-].
      by destruct sep.
    + rewrite (split_cons sep c s Hs).
      destruct (PyStr.split sep s) as [|x' r'] eqn:Hx; [done|].
      intros [= <- <-]. cbn [PyStr.contains]. rewrite (IH x' r' eq_refl).
      rewrite orb_false_r.
      destruct (split_head_prefix sep s x' r' Hx) as [y ->].
      destruct (PyStr.startswith sep (String c x')) eqn:Hx'; [|done].
      apply (startswith_append _ _ y) in Hx'. rewrite append_cons in Hx'.
      congruence.
Qed.

Lemma split_nonempty (sep s : string) : PyStr.split sep s ≠ [].
Proof.
  unfold PyStr.split. generalize "" at 1. generalize 0.
  induction s as [|c s IH]; intros skip cur; [done|].
  cbn [PyStr.split_from]. destruct skip; [|apply IH].
  destruct (PyStr.startswith sep (String c s)); [done|apply IH].
Qed.

Lemma startswith_inv (sep t : string) :
  PyStr.startswith sep t = true → ∃ t', t = sep +:+ t'.
Proof.
  revert t. induction sep as [|a sep IH]; intros t; [by exists t|].
  destruct t as [|b t]; [done|]. cbn.
  intros [->%Ascii.eqb_eq Hs]%andb_true_iff.
  destruct (IH t Hs) as [t' ->]. by exists t'.
Qed.

Lemma contains_append_l_false (sub s1 s2 : string) :
  PyStr.contains sub (s1 +:+ s2) = false → PyStr.contains sub s1 = false.
Proof.
  intros Hc. destruct (PyStr.contains sub s1) eqn:H1; [|done].
  apply (contains_append_l sub s1 s2) in H1. congruence.
Qed.

(** A text that ends where [x] ends, or goes on with the separator, has
    [x] as its first piece. *)
Lemma split_head (sep0 : string) (l : ascii) (x tail : string) :
  let sep := sep0 +:+ String l "" in
  PyStr.contains sep (x +:+ sep0) = false →
  tail = "" ∨ PyStr.startswith sep tail = true →
  PyStr.item (PyStr.split sep (x +:+ tail)) 0 = Ok x.
Proof.
  intros sep Hc [->|[t' ->]%startswith_inv].
  - rewrite append_nil_r, split_absent; [done|].
    by apply (contains_append_l_false _ _ sep0).
  - subst sep. by rewrite split_first.
Qed.

(** A text in which the first character of the separator does not occur
    before [tail] has a first piece that goes up to [tail] at least. *)
Lemma split_head_beyond (l : ascii) (rest x tail : string) :
  PyStr.contains (String l "") x = false →
  ∃ p y, PyStr.item (PyStr.split (String l rest) (x +:+ tail)) 0
         = Ok (x +:+ p)
         ∧ tail = p +:+ y.
Proof.
  intros Hx. induction x as [|c x IH].
  - destruct (PyStr.split (String l rest) tail) as [|p r] eqn:Hp.
    { by destruct (split_nonempty (String l rest) tail). }
    destruct (split_head_prefix _ _ _ _ Hp) as [y ->].
    exists p, y. change ("" +:+ p +:+ y) with (p +:+ y). by rewrite Hp.
  - apply contains_false_inv in Hx as [Hc Hx].
    destruct (IH Hx) as (p & y & Hp & ->). exists p, y. split; [|done].
    rewrite append_cons, split_cons.
    + unfold PyStr.item in *.
      destruct (PyStr.split (String l rest) (x +:+ p +:+ y)) as [|x0 r]; [done|].
      cbn in *. by simplify_eq.
    + cbn in *. rewrite andb_true_r in Hc. by rewrite Hc.
Qed.

(** ** Share links *)

(** The document identifier: what stands between the first [/d/] and the
    next [/]. *)
Lemma doc_id_resolved (a id tail : string) :
  PyStr.contains "/d/" (a +:+ "/d") = false →
  PyStr.contains "/" id = false →
  tail = "" ∨ PyStr.startswith "/" tail = true →
  (parts ← PyStr.item (PyStr.split "/d/" (a +:+ "/d/" +:+ id +:+ tail)) 1;
   PyStr.item (PyStr.split "/" parts) 0) = Ok id.
Proof.
  intros Ha Hid Htail.
  pose proof (split_first "/d" "/"%char a (id +:+ tail) Ha) as Hsplit.
  change ("/d" +:+ String "/"%char "") with "/d/" in Hsplit.
  rewrite Hsplit. unfold PyStr.item at 1. cbn [lookup list_lookup].
  destruct (split_head_beyond "/"%char "d/" id tail Hid) as (p & y & Hp & ->).
  unfold PyStr.item at 1 in Hp. unfold PyStr.item at 1.
  destruct (PyStr.split "/d/" (id +:+ p +:+ y)) as [|x r]; [done|].
  cbn in Hp |- *. injection Hp as ->.
  apply (split_head "" "/"%char id p).
  - by rewrite append_nil_r.
  - destruct p as [|c p]; [by left|right].
    destruct Htail as [?|Htail]; [done|].
    exact Htail.
Qed.

(** The tab identifier: what stands between [gid=] and the next [&]. *)
Lemma gid_resolved (pre g rest : string) :
  PyStr.contains "gid=" (pre +:+ "gid") = false →
  PyStr.contains "gid=" (g +:+ rest) = false →
  PyStr.contains "&" g = false →
  rest = "" ∨ PyStr.startswith "&" rest = true →
  (p ← PyStr.item (PyStr.split "gid=" (pre +:+ "gid=" +:+ g +:+ rest)) 1;
   PyStr.item (PyStr.split "&" p) 0) = Ok g.
Proof.
  intros Hpre Hone Hg Hrest.
  pose proof (split_first "gid" "="%char pre (g +:+ rest) Hpre) as Hsplit.
  change ("gid" +:+ String "="%char "") with "gid=" in Hsplit.
  rewrite Hsplit, (split_absent "gid=" (g +:+ rest) Hone). cbn.
  apply (split_head "" "&"%char g rest); [by rewrite append_nil_r|done].
Qed.

(** X2: a share link [a/d/id], possibly followed by [/...], without
    [gid=]: the export URL of the document [id]. *)
Theorem share_link_resolved (a id tail : string) :
  PyStr.contains marker (a +:+ "/d/" +:+ id +:+ tail) = false →
  PyStr.contains "gid=" (a +:+ "/d/" +:+ id +:+ tail) = false →
  PyStr.contains "/d/" (a +:+ "/d") = false →
  PyStr.contains "/" id = false →
  tail = "" ∨ PyStr.startswith "/" tail = true →
  export_url (a +:+ "/d/" +:+ id +:+ tail)
  = Ok (sheets +:+ id +:+ "/export?format=csv").
Proof.
  intros Hm Hgid Ha Hid Htail. unfold export_url.
  rewrite Hm, Hgid, (doc_id_resolved a id tail Ha Hid Htail). done.
Qed.

(** X3: a share link [a/d/id/mid gid=g], possibly followed by [&...],
    where [/d/] does not occur before [id] nor [gid=] before [g]: the
    export URL of the tab [g] of the document [id]. *)
Theorem share_link_gid_resolved (a id mid g rest : string) :
  let sheet_url :=
    a +:+ "/d/" +:+ id +:+ "/" +:+ mid +:+ "gid=" +:+ g +:+ rest in
  PyStr.contains marker sheet_url = false →
  PyStr.contains "/d/" (a +:+ "/d") = false →
  PyStr.contains "/" id = false →
  PyStr.contains "gid=" (a +:+ "/d/" +:+ id +:+ "/" +:+ mid +:+ "gid")
  = false →
  PyStr.contains "gid=" (g +:+ rest) = false →
  PyStr.contains "&" g = false →
  g ≠ "" →
  rest = "" ∨ PyStr.startswith "&" rest = true →
  export_url sheet_url
  = Ok (sheets +:+ id +:+ "/export?format=csv&gid=" +:+ g).
Proof.
  intros sheet_url Hm Ha Hid Hpre Hone Hg Hne Hrest. unfold export_url.
  rewrite Hm. subst sheet_url.
  rewrite (doc_id_resolved a id ("/" +:+ mid +:+ "gid=" +:+ g +:+ rest) Ha Hid)
    by (by right). cbn.
  assert (a +:+ "/d/" +:+ id +:+ "/" +:+ mid +:+ "gid=" +:+ g +:+ rest
          = (a +:+ "/d/" +:+ id +:+ "/" +:+ mid) +:+ "gid=" +:+ g +:+ rest)
    as -> by (by rewrite !append_assoc).
  assert (PyStr.contains "gid="
            ((a +:+ "/d/" +:+ id +:+ "/" +:+ mid) +:+ "gid=" +:+ g +:+ rest)
          = true) as ->.
  { apply contains_append_r, contains_prefix, startswith_self. }
  rewrite gid_resolved; [by destruct g|by rewrite !append_assoc|done..].
Qed.

(** X1: whatever the resolver returns contains the marker and is resolved
    to itself: resolving twice is resolving once. *)
Theorem export_url_fixed_point (sheet_url url : string) :
  export_url sheet_url = Ok url →
  PyStr.contains marker url = true ∧ export_url url = Ok url.
Proof.
  intros Hu. split.
  - by apply (export_url_has_marker sheet_url).
  - by apply (export_url_idempotent sheet_url).
Qed.

(** X4: the resolver returns its input or an export URL of the sheets
    host, with an identifier without [/] and, if any, a tab identifier
    that is not empty and has no [&]. *)
Theorem export_url_shape (sheet_url url : string) :
  export_url sheet_url = Ok url →
  PyStr.contains marker sheet_url = true ∧ url = sheet_url
  ∨ ∃ doc_id,
      PyStr.contains "/" doc_id = false
      ∧ (url = sheets +:+ doc_id +:+ "/export?format=csv"
         ∨ ∃ gid, gid ≠ "" ∧ PyStr.contains "&" gid = false
                  ∧ url = sheets +:+ doc_id +:+ "/export?format=csv&gid="
                          +:+ gid).
Proof.
  unfold export_url.
  destruct (PyStr.contains marker sheet_url) eqn:Hm.
  { intros [= <-]. by left. }
  intros Hu. right.
  destruct (PyStr.item (PyStr.split "/d/" sheet_url) 1) as [parts|]; [|done].
  cbn in Hu.
  destruct (PyStr.item (PyStr.split "/" parts) 0) as [doc_id|] eqn:Hd; [|done].
  cbn in Hu. exists doc_id. split.
  { unfold PyStr.item in Hd.
    destruct (PyStr.split "/" parts) as [|x r] eqn:Hx; [done|].
    cbn in Hd. injection Hd as Hd. subst x.
    by apply (split_head_free "/" parts doc_id r). }
  unfold sheets.
  destruct (PyStr.contains "gid=" sheet_url);
    [|left; by injection Hu as <-].
  destruct (PyStr.item (PyStr.split "gid=" sheet_url) 1) as [p|]; cbn in Hu;
    [|left; by injection Hu as <-].
  destruct (PyStr.item (PyStr.split "&" p) 0) as [[|c g]|] eqn:Hg;
    [left; by injection Hu as <-| |left; by injection Hu as <-].
  right. exists (String c g). split_and!; [done| |by injection Hu as <-].
  unfold PyStr.item in Hg.
  destruct (PyStr.split "&" p) as [|x r] eqn:Hx; [done|].
  cbn in Hg. injection Hg as Hg. subst x.
  by apply (split_head_free "&" p (String c g) r).
Qed.

(** ** One turn of the import on the store *)

Section UpsertFacts.
Context {RT : Runtime}.
Implicit Types (c : Collection) (t : Turbine) (d e : Document).
Implicit Types (n m : string) (ts : list Turbine).

Lemma upsert_found t c i e :
  NoDup (_id <$> c) →
  list_find (λ d, name (data d) = name t) c = Some (i, e) →
  upsert t c = <[i := {| _id := _id e; data := t |}]> c.
Proof.
  intros Hnd Hf. unfold upsert, find_one_name. rewrite Hf. cbn.
  by apply (update_one_id_found c (name t)).
Qed.

Lemma upsert_new t c :
  list_find (λ d, name (data d) = name t) c = None →
  upsert t c = c ++ [{| _id := fresh_id c; data := t |}].
Proof. intros Hf. unfold upsert, find_one_name. by rewrite Hf. Qed.

Lemma names_find n c :
  n ∈ names c → ∃ i e, list_find (λ d, name (data d) = n) c = Some (i, e).
Proof.
  intros Hn. destruct (list_find _ c) as [[i e]|] eqn:Hf; [eauto|].
  destruct (proj1 (find_one_name_None n c)); [|done].
  unfold find_one_name. by rewrite Hf.
Qed.

(** A later record of the same name overwrites an earlier one. *)
Lemma upsert_overwrite t t' c :
  NoDup (_id <$> c) → name t = name t' →
  upsert t (upsert t' c) = upsert t c.
Proof.
  intros Hnd Hn. pose proof (upsert_NoDup t' c Hnd) as Hnd'.
  destruct (list_find (λ d, name (data d) = name t') c) as [[i e]|] eqn:Hf.
  - rewrite (upsert_found t' c i e Hnd Hf).
    rewrite (upsert_found t' c i e Hnd Hf) in Hnd'.
    pose proof Hf as (Hi & Hname & _)%list_find_Some.
    assert (list_find (λ d, name (data d) = name t)
              (<[i:={| _id := _id e; data := t' |}]> c)
            = Some (i, {| _id := _id e; data := t' |})) as Hf'.
    { rewrite Hn, (list_find_insert_alike _ c i e) by done.
      rewrite Hf. cbn. by rewrite decide_True. }
    rewrite (upsert_found t _ i _ Hnd' Hf'). cbn.
    rewrite list_insert_insert_eq.
    rewrite <-Hn in Hf. by rewrite (upsert_found t c i e Hnd Hf).
  - rewrite (upsert_new t' c Hf). rewrite (upsert_new t' c Hf) in Hnd'.
    assert (list_find (λ d, name (data d) = name t)
              (c ++ [{| _id := fresh_id c; data := t' |}])
            = Some (length c, {| _id := fresh_id c; data := t' |})) as Hf'.
    { rewrite Hn, list_find_app_r by done. cbn. by rewrite decide_True. }
    rewrite (upsert_found t _ _ _ Hnd' Hf'). cbn.
    rewrite <-Hn in Hf. rewrite (upsert_new t c Hf).
    rewrite insert_app_r_alt by done. by rewrite Nat.sub_diag.
Qed.

(** Records of two stored names can be written in either order. *)
Lemma upsert_commute t t' c :
  NoDup (_id <$> c) → name t ≠ name t' →
  name t ∈ names c → name t' ∈ names c →
  upsert t (upsert t' c) = upsert t' (upsert t c).
Proof.
  intros Hnd Hn (i & e & Hf)%names_find (j & e' & Hf')%names_find.
  pose proof Hf as (Hi & Hname & _)%list_find_Some.
  pose proof Hf' as (Hj & Hname' & _)%list_find_Some.
  assert (i ≠ j) as Hij by (intros ->; congruence).
  pose proof (upsert_NoDup t c Hnd) as Hnd1.
  pose proof (upsert_NoDup t' c Hnd) as Hnd2.
  rewrite (upsert_found t c i e Hnd Hf) in Hnd1 |- *.
  rewrite (upsert_found t' c j e' Hnd Hf') in Hnd2 |- *.
  assert (list_find (λ d, name (data d) = name t)
            (<[j:={| _id := _id e'; data := t' |}]> c) = Some (i, e)) as H1.
  { rewrite (list_find_insert_alike _ c j e') by (cbn; done || split; congruence).
    rewrite Hf. cbn. by rewrite decide_False. }
  assert (list_find (λ d, name (data d) = name t')
            (<[i:={| _id := _id e; data := t |}]> c) = Some (j, e')) as H2.
  { rewrite (list_find_insert_alike _ c i e) by (cbn; done || split; congruence).
    rewrite Hf'. cbn. by rewrite decide_False. }
  rewrite (upsert_found t _ i e Hnd2 H1), (upsert_found t' _ j e' Hnd1 H2).
  by apply list_insert_insert_ne.
Qed.

Lemma upsert_names_covered t c n :
  NoDup (_id <$> c) → n ∈ names c → n ∈ names (upsert t c).
Proof.
  intros Hnd Hn. rewrite (upsert_names t c Hnd).
  apply elem_of_union. by right.
Qed.

Lemma reconcile_names ts c :
  NoDup (_id <$> c) →
  names (foldl (λ c t, upsert t c) c ts)
  = names c ∪ list_to_set (name <$> ts).
Proof.
  revert c. induction ts as [|t ts IH]; intros c Hnd.
  - cbn. by rewrite union_empty_r_L.
  - cbn [foldl]. rewrite (IH _ (upsert_NoDup t c Hnd)), (upsert_names t c Hnd).
    rewrite fmap_cons, list_to_set_cons.
    rewrite (union_comm_L {[name t]} (names c)). by rewrite union_assoc_L.
Qed.

(** An earlier write of a record is lost under the later writes of a run
    that ends with the same record. *)
Lemma reconcile_absorb t ts c :
  NoDup (_id <$> c) →
  name t ∈ names c →
  Forall (λ t', name t' ∈ names c) ts →
  upsert t (foldl (λ c t, upsert t c) (upsert t c) ts)
  = upsert t (foldl (λ c t, upsert t c) c ts).
Proof.
  revert c. induction ts as [|s ts IH]; intros c Hnd Ht Hts.
  { by apply upsert_overwrite. }
  apply Forall_cons in Hts as [Hs Hts].
  cbn [foldl]. destruct (decide (name s = name t)) as [Hst|Hst].
  - by rewrite (upsert_overwrite s t c Hnd Hst).
  - rewrite (upsert_commute s t c Hnd Hst Hs Ht).
    apply IH.
    + by apply upsert_NoDup.
    + by apply upsert_names_covered.
    + eapply Forall_impl; [exact Hts|].
      intros t' Ht'. by apply upsert_names_covered.
Qed.

End UpsertFacts.

Section ReconcileFacts.
Context {RT : Runtime}.
Implicit Types (c : Collection) (t s : Turbine) (d e : Document).
Implicit Types (ts : list Turbine).

Lemma upsert_ids_found t c i e :
  NoDup (_id <$> c) →
  list_find (λ d, name (data d) = name t) c = Some (i, e) →
  _id <$> upsert t c = _id <$> c.
Proof.
  intros Hnd Hf. rewrite (upsert_found t c i e Hnd Hf).
  apply list_find_Some in Hf as (Hi & _ & _).
  rewrite list_fmap_insert. cbn.
  apply list_insert_id. by rewrite list_lookup_fmap, Hi.
Qed.

(** A record of a stored name and a record of a new name can be written
    in either order. *)
Lemma upsert_commute_new t s c :
  NoDup (_id <$> c) →
  name t ∉ names c → name s ∈ names c →
  upsert s (upsert t c) = upsert t (upsert s c).
Proof.
  intros Hnd Ht (j & e & Hs)%names_find.
  assert (list_find (λ d, name (data d) = name t) c = None) as Hf.
  { apply find_one_name_None in Ht. unfold find_one_name in Ht.
    by destruct (list_find _ c). }
  pose proof (upsert_NoDup t c Hnd) as Hnd1.
  rewrite (upsert_new t c Hf) in Hnd1 |- *.
  rewrite (upsert_found s _ j e Hnd1 (list_find_app_l _ _ _ _ _ Hs)).
  pose proof Hs as (Hj & Hname & _)%list_find_Some.
  rewrite insert_app_l by eauto using lookup_lt_Some.
  assert (list_find (λ d, name (data d) = name t) (upsert s c) = None) as Hf'.
  { assert (name t ∉ names (upsert s c)) as Hn.
    { rewrite (upsert_names s c Hnd), elem_of_union, elem_of_singleton.
      intros [Heq|?]; [|done]. apply Ht. rewrite Heq.
      apply names_elem. exists e. eauto using list_elem_of_lookup_2. }
    apply find_one_name_None in Hn. unfold find_one_name in Hn.
    by destruct (list_find _ (upsert s c)). }
  rewrite (upsert_new t _ Hf'). unfold fresh_id.
  rewrite (upsert_ids_found s c j e Hnd Hs).
  by rewrite (upsert_found s c j e Hnd Hs).
Qed.

Lemma reconcile_absorb_any t ts c :
  NoDup (_id <$> c) →
  Forall (λ t', name t' ∈ names c) ts →
  upsert t (foldl (λ c t, upsert t c) (upsert t c) ts)
  = upsert t (foldl (λ c t, upsert t c) c ts).
Proof.
  revert c. induction ts as [|s ts IH]; intros c Hnd Hts.
  { by apply upsert_overwrite. }
  apply Forall_cons in Hts as [Hs Hts].
  cbn [foldl]. destruct (decide (name s = name t)) as [Hst|Hst].
  { by rewrite (upsert_overwrite s t c Hnd Hst). }
  assert (upsert s (upsert t c) = upsert t (upsert s c)) as ->.
  { destruct (decide (name t ∈ names c)) as [Ht|Ht].
    - by apply upsert_commute.
    - by apply upsert_commute_new. }
  apply IH; [by apply upsert_NoDup|].
  eapply Forall_impl; [exact Hts|].
  intros t' Ht'. by apply upsert_names_covered.
Qed.

(** Running the loop again on its own result changes nothing. *)
Lemma reconcile_idempotent ts c :
  NoDup (_id <$> c) →
  foldl (λ c t, upsert t c) (foldl (λ c t, upsert t c) c ts) ts
  = foldl (λ c t, upsert t c) c ts.
Proof.
  intros Hnd. induction ts as [|t ts IH] using rev_ind; [done|].
  rewrite !foldl_snoc.
  set (X := foldl (λ c t, upsert t c) c ts) in *.
  pose proof (reconcile_NoDup ts c Hnd) as HndX. fold X in HndX.
  rewrite reconcile_absorb_any, IH; [done|done|].
  apply Forall_forall. intros t' Ht'. unfold X.
  rewrite (reconcile_names ts c Hnd), elem_of_union, elem_of_list_to_set.
  right. by apply list_elem_of_fmap_2.
Qed.

Lemma spec_counts_known (known : gset string) ts :
  Forall (λ t, name t ∈ known) ts → spec_counts known ts = (0, length ts).
Proof.
  induction 1 as [|t ts Ht _ IH]; [done|].
  cbn [spec_counts]. rewrite decide_True by done. by rewrite IH.
Qed.

(** A turn keeps the documents in place and adds at most one at the
    end. *)
Lemma upsert_ids t c :
  _id <$> upsert t c
  = (_id <$> c) ++ match find_one_name (name t) c with
                   | Some _ => []
                   | None => [fresh_id c]
                   end.
Proof.
  unfold upsert. destruct (find_one_name (name t) c) as [e|].
  - rewrite app_nil_r. unfold update_one_id.
    destruct (list_find _ c) as [[i d]|] eqn:Hf; [|done].
    apply list_find_Some in Hf as (Hi & _ & _).
    rewrite list_fmap_insert. cbn.
    apply list_insert_id. by rewrite list_lookup_fmap, Hi.
  - cbn. by rewrite fmap_app.
Qed.

(** A turn leaves the documents of the other names as they are. *)
Lemma upsert_lookup_other t c k d :
  NoDup (_id <$> c) →
  c !! k = Some d → name (data d) ≠ name t → upsert t c !! k = Some d.
Proof.
  intros Hnd Hk Hn.
  destruct (list_find (λ d, name (data d) = name t) c) as [[i e]|] eqn:Hf.
  - rewrite (upsert_found t c i e Hnd Hf).
    apply list_find_Some in Hf as (Hi & Hname & _).
    rewrite list_lookup_insert_ne; [done|]. intros ->. congruence.
  - rewrite (upsert_new t c Hf). by apply lookup_app_l_Some.
Qed.

Lemma reconcile_lookup_other ts c k d :
  NoDup (_id <$> c) →
  c !! k = Some d → name (data d) ∉ name <$> ts →
  foldl (λ c t, upsert t c) c ts !! k = Some d.
Proof.
  revert c. induction ts as [|t ts IH]; intros c Hnd Hk Hn; [done|].
  rewrite fmap_cons, not_elem_of_cons in Hn. destruct Hn as [Hnt Hn].
  cbn [foldl]. apply IH; [by apply upsert_NoDup| |done].
  by apply upsert_lookup_other.
Qed.

End ReconcileFacts.

(** ** The handlers, further *)

Section HandlerFurther.
Context {RT : Runtime} {NW : Network}.
Implicit Types (w : World) (c : Collection) (ts : list Turbine).

(** The loop keeps the documents in place, adds one document per insert
    and counts every record. *)
Lemma upsert_all_grows ts i u w c :
  db w = Some c →
  ∃ i' u',
    upsert_all ts i u w
    = (Ok (i', u'),
       {| db := Some (foldl (λ c t, upsert t c) c ts); fetched := fetched w |})
    ∧ i' + u' = i + u + length ts
    ∧ length (foldl (λ c t, upsert t c) c ts) + i = length c + i'
    ∧ (_id <$> c) `prefix_of` (_id <$> foldl (λ c t, upsert t c) c ts).
Proof.
  revert i u w c. induction ts as [|t ts IH]; intros i u w c Hdb.
  - exists i, u. destruct w; simplify_eq/=. split_and!; [done|lia|lia|done].
  - rewrite (upsert_all_cons t ts i u w c Hdb). cbn zeta.
    pose proof (upsert_ids t c) as Hids.
    pose proof (f_equal length Hids) as Hlen.
    rewrite length_app, !length_fmap in Hlen.
    assert ((_id <$> c) `prefix_of` (_id <$> upsert t c)) as Hpre
      by (rewrite Hids; by apply prefix_app_r).
    destruct (find_one_name (name t) c).
    + destruct (IH i (S u) {| db := Some (upsert t c); fetched := fetched w |}
                  (upsert t c) eq_refl) as (i' & u' & -> & Hsum & Hl & Hp).
      exists i', u'. cbn in *. split_and!; [done|lia|lia|by etrans].
    + destruct (IH (S i) u {| db := Some (upsert t c); fetched := fetched w |}
                  (upsert t c) eq_refl) as (i' & u' & -> & Hsum & Hl & Hp).
      exists i', u'. cbn in *. split_and!; [done|lia|lia|by etrans].
Qed.

(** What fetching does to the world. *)
Lemma fetch_google_sheet_csv_world (sheet_url : string) w :
  (fetch_google_sheet_csv sheet_url w).2
  = match export_url sheet_url with
    | Ok url => {| db := db w; fetched := fetched w ++ [url] |}
    | Raise _ => w
    end.
Proof.
  unfold fetch_google_sheet_csv, mbind, IO_bind, lift, get, raise, mret, IO_ret.
  destruct (export_url sheet_url) as [url|]; [|done]. cbn.
  destruct (requests_get url) as [resp|]; [|done]. cbn.
  by case_decide.
Qed.

Lemma fetch_google_sheet_csv_Ok (sheet_url csv_text : string) w w' :
  fetch_google_sheet_csv sheet_url w = (Ok csv_text, w') →
  ∃ url resp,
    export_url sheet_url = Ok url
    ∧ requests_get url = Ok resp
    ∧ status_code resp = 200
    ∧ text resp = csv_text
    ∧ w' = {| db := db w; fetched := fetched w ++ [url] |}.
Proof.
  unfold fetch_google_sheet_csv, mbind, IO_bind, lift, get, raise, mret, IO_ret.
  destruct (export_url sheet_url) as [url|]; [|done]. cbn.
  destruct (requests_get url) as [resp|] eqn:Hresp; [|done]. cbn.
  case_decide as Hs; [done|]. intros [= <- <-].
  exists url, resp. by split_and!.
Qed.

(** X5: a sheet is returned only from a response with status 200, as its
    text, after one request, to the resolved URL; the store is left
    alone. *)
Theorem fetch_returns_only_200 (sheet_url csv_text : string) w w' :
  fetch_google_sheet_csv sheet_url w = (Ok csv_text, w') →
  ∃ url resp,
    export_url sheet_url = Ok url
    ∧ requests_get url = Ok resp
    ∧ status_code resp = 200
    ∧ text resp = csv_text
    ∧ w' = {| db := db w; fetched := fetched w ++ [url] |}.
Proof. apply fetch_google_sheet_csv_Ok. Qed.

(** X6: a response with another status than 200 is turned into the client
    error that names the status, after the one request. *)
Theorem fetch_rejects_other_status (sheet_url url : string)
    (resp : Response) w :
  export_url sheet_url = Ok url →
  requests_get url = Ok resp →
  status_code resp ≠ 200 →
  fetch_google_sheet_csv sheet_url w
  = (Raise (HTTPException 400
              ("Failed to fetch sheet CSV: " +:+ pretty (status_code resp))),
     {| db := db w; fetched := fetched w ++ [url] |}).
Proof.
  intros Hu Hresp Hs.
  unfold fetch_google_sheet_csv, mbind, IO_bind, lift, get, raise.
  rewrite Hu. cbn. rewrite Hresp. cbn. by rewrite decide_True.
Qed.

(** X7: an import that fails has not written to the store, and has made
    one request at most: it has failed on the missing database, on the
    URL, on the fetch or on the parse, all of which come before the first
    write (the operations of the store are taken not to fail). *)
Theorem import_failure_keeps_store (sheet_url : string) w w' (e : exn) :
  import_turbines sheet_url w = (Raise e, w') →
  db w' = db w
  ∧ (fetched w' = fetched w
     ∨ ∃ url, export_url sheet_url = Ok url
              ∧ fetched w' = fetched w ++ [url]).
Proof.
  unfold import_turbines, mbind at 1, IO_bind at 1, get_db.
  destruct (db w) as [c|] eqn:Hdb.
  2:{ intros [= <- <-]. auto. }
  unfold mbind at 1, IO_bind at 1.
  pose proof (fetch_google_sheet_csv_world sheet_url w) as Hw.
  destruct (fetch_google_sheet_csv sheet_url w) as [[csv_text|e1] w1];
    cbn in Hw.
  - unfold mbind at 1, IO_bind at 1, lift.
    assert (db w1 = Some c) as Hdb1.
    { subst w1. by destruct (export_url sheet_url). }
    destruct (parse_turbine_csv csv_text) as [turbines|e2].
    + unfold mbind, IO_bind.
      by destruct (upsert_all_returns turbines 0 0 w1 c Hdb1)
        as (i & u & -> & _).
    + intros [= <- <-]. rewrite Hdb1. split; [done|].
      subst w1. destruct (export_url sheet_url) as [url|]; eauto.
  - intros [= <- <-]. subst w1.
    destruct (export_url sheet_url) as [url|]; cbn; eauto.
Qed.

(** X8: an import that returns has made exactly one request, to the
    resolved URL; it has kept the stored documents in place and has added
    as many documents as it reports inserted. *)
Theorem import_success_grows (sheet_url : string) w w' (r : ImportResult) :
  import_turbines sheet_url w = (Ok r, w') →
  ∃ url c c',
    export_url sheet_url = Ok url
    ∧ fetched w' = fetched w ++ [url]
    ∧ db w = Some c ∧ db w' = Some c'
    ∧ (_id <$> c) `prefix_of` (_id <$> c')
    ∧ length c' = length c + inserted r.
Proof.
  unfold import_turbines, mbind at 1, IO_bind at 1, get_db.
  destruct (db w) as [c|] eqn:Hdb; [|done].
  unfold mbind at 1, IO_bind at 1.
  destruct (fetch_google_sheet_csv sheet_url w) as [[csv_text|] w1] eqn:Hf;
    [|done].
  apply fetch_google_sheet_csv_Ok in Hf as (url & resp & Hu & _ & _ & _ & ->).
  unfold mbind at 1, IO_bind at 1, lift.
  destruct (parse_turbine_csv csv_text) as [turbines|]; [|done].
  unfold mbind, IO_bind.
  destruct (upsert_all_grows turbines 0 0
              {| db := db w; fetched := fetched w ++ [url] |} c Hdb)
    as (i & u & -> & _ & Hlen & Hpre).
  cbn. intros [= <- <-]. exists url, c, (foldl (λ c t, upsert t c) c turbines).
  cbn. split_and!; try done. lia.
Qed.

(** X9: the loop leaves every stored document whose name is not imported
    as it is and where it is, and the names stored afterwards are those
    stored before and those imported. *)
Theorem import_keeps_other_documents w c ts :
  db w = Some c →
  NoDup (_id <$> c) →
  ∃ counts c',
    upsert_all ts 0 0 w
    = (Ok counts, {| db := Some c'; fetched := fetched w |})
    ∧ names c' = names c ∪ list_to_set (name <$> ts)
    ∧ ∀ k d, c !! k = Some d → name (data d) ∉ name <$> ts →
        c' !! k = Some d.
Proof.
  intros Hdb Hnd.
  destruct (upsert_all_returns ts 0 0 w c Hdb) as (i & u & Hrun & _).
  exists (i, u), (foldl (λ c t, upsert t c) c ts). split_and!; [done| |].
  - by apply reconcile_names.
  - intros k d Hk Hn. by apply reconcile_lookup_other.
Qed.

(** X10: running the loop again on the same records inserts nothing,
    updates every record and leaves the store as the first run left
    it. *)
Theorem reimport_changes_nothing w c ts :
  db w = Some c →
  NoDup (_id <$> c) →
  ∃ counts w1,
    upsert_all ts 0 0 w = (Ok counts, w1)
    ∧ upsert_all ts 0 0 w1 = (Ok (0, length ts), w1).
Proof.
  intros Hdb Hnd.
  set (c' := foldl (λ c t, upsert t c) c ts).
  exists (spec_counts (names c) ts), {| db := Some c'; fetched := fetched w |}.
  split.
  - rewrite (upsert_all_counts ts 0 0 w c Hdb Hnd).
    by destruct (spec_counts (names c) ts).
  - rewrite (upsert_all_counts ts 0 0
               {| db := Some c'; fetched := fetched w |} c' eq_refl
               (reconcile_NoDup ts c Hnd)).
    cbn. unfold c' at 3. rewrite (reconcile_idempotent ts c Hnd). fold c'.
    rewrite spec_counts_known; [done|].
    apply Forall_forall. intros t Ht. unfold c'.
    rewrite (reconcile_names ts c Hnd), elem_of_union, elem_of_list_to_set.
    right. by apply list_elem_of_fmap_2.
Qed.

End HandlerFurther.

(** ** Title case, further *)

Lemma title_char_alpha (b : bool) (c : ascii) :
  PyStr.isalpha (title_char b c) = PyStr.isalpha c.
Proof. destruct c as [[] [] [] [] [] [] [] []], b; reflexivity. Qed.

Lemma title_char_idem (b : bool) (c : ascii) :
  title_char b (title_char b c) = title_char b c.
Proof. destruct c as [[] [] [] [] [] [] [] []], b; reflexivity. Qed.

(** A title-cased text is its own title case. *)
Lemma title_from_idem (b : bool) (s : string) :
  PyStr.title_from b (PyStr.title_from b s) = PyStr.title_from b s.
Proof.
  revert b. induction s as [|c s IH]; intros b; [done|].
  rewrite !title_from_cons, title_char_idem, title_char_alpha. by rewrite IH.
Qed.

Lemma title_from_nonempty (b : bool) (s : string) :
  s ≠ "" → PyStr.title_from b s ≠ "".
Proof. destruct s as [|c s]; [done|]. by rewrite title_from_cons. Qed.

(** ** The parser, further *)

Section ParserFurther.
Context {RT : Runtime}.

Lemma parse_turbine_csv_Forall (P : Turbine → Prop)
    (csv_text : string) (records : list Turbine) :
  (∀ normalized t, record_of normalized = Ok t → P t) →
  parse_turbine_csv csv_text = Ok records →
  Forall P records.
Proof.
  intros HP Hparse.
  destruct (parse_turbine_csv_each_row (λ _ t, P t) csv_text records HP Hparse)
    as (rows & _ & Hrows).
  clear Hparse.
  induction Hrows as [|row t rows' records' (m & _ & Ht) _ IH];
    [constructor|].
  constructor; [exact Ht|exact IH].
Qed.

Lemma record_of_normal (normalized : gmap string string) (t : Turbine) :
  record_of normalized = Ok t →
  status t ≠ "" ∧ PyStr.title (status t) = status t ∧ location t ≠ Some "".
Proof.
  intros Hr.
  destruct (record_of_returns normalized)
    as (lat & lng & cap & _ & _ & _ & Hr').
  rewrite Hr' in Hr. injection Hr as <-. cbn. split_and!.
  - by apply title_from_nonempty, or_str_nonempty.
  - apply title_from_idem.
  - by destruct (location_cell normalized) as [[|??]|].
Qed.

(** X11: in every record the parser returns from a sheet of ASCII text
    the status is not empty and is its own title case, and the location is
    a non-empty text or absent. *)
Theorem records_normalized (csv_text : string) (records : list Turbine) :
  isascii csv_text = true →
  parse_turbine_csv csv_text = Ok records →
  Forall (λ t, status t ≠ ""
               ∧ PyStr.title (status t) = status t
               ∧ location t ≠ Some "") records.
Proof.
  intros _. apply parse_turbine_csv_Forall. intros m t. apply record_of_normal.
Qed.

(** The row of a line with more cells than the header ends with the list
    of the surplus cells under the key [None]. *)
Lemma dict_set_fresh {K V} `{EqDecision K} (k : K) (v : V)
    (d : Csv.dict K V) :
  Forall (λ kv, kv.1 ≠ k) d → Csv.dict_set k v d = d ++ [(k, v)].
Proof.
  induction 1 as [|[k' v'] d Hk _ IH]; [done|]. cbn in *.
  rewrite decide_False by done. by rewrite IH.
Qed.

Lemma dict_zip_keys (d : Csv.dict (option string) Csv.cell)
    (fieldnames row : list string) :
  Forall (strippable (λ _, True)) d →
  Forall (λ kv, kv.1 ≠ None) d →
  Forall (strippable (λ _, True)) (Csv.dict_zip d fieldnames row)
  ∧ Forall (λ kv, kv.1 ≠ None) (Csv.dict_zip d fieldnames row).
Proof.
  revert d row. induction fieldnames as [|k fieldnames IH];
    intros d [|v row] Hs Hk; try done.
  cbn. apply IH; apply dict_set_Forall; try done.
  by exists (PyStr.strip v).
Qed.

Lemma normalize_surplus (items : Csv.dict (option string) Csv.cell)
    (k : option string) (x : string) (xs : list string)
    (acc : gmap string string) :
  Forall (strippable (λ _, True)) items →
  normalize (items ++ [(k, Csv.CList (x :: xs))]) acc = Raise AttributeError.
Proof.
  intros Hitems. revert acc.
  induction Hitems as [|[k' v'] items (s & Hs & _) _ IH]; intros acc; [done|].
  cbn in Hs |- *. rewrite Hs. cbn. apply IH.
Qed.

Lemma parse_row_surplus (fieldnames row : list string) :
  length fieldnames < length row →
  parse_row (Csv.dict_row fieldnames row) = Raise AttributeError.
Proof.
  intros Hlen. unfold parse_row, Csv.dict_row.
  rewrite (proj2 (Nat.ltb_lt _ _) Hlen).
  destruct (dict_zip_keys [] fieldnames row) as [Hs Hk]; [done..|].
  rewrite dict_set_fresh by done.
  destruct (drop (length fieldnames) row) as [|x xs] eqn:Hdrop.
  { apply (f_equal length) in Hdrop. rewrite length_drop in Hdrop.
    cbn in Hdrop. lia. }
  by rewrite normalize_surplus.
Qed.

(** A row is parsed or raises [AttributeError]. *)
Lemma parse_row_cases (fieldnames row : list string) :
  (∃ t, parse_row (Csv.dict_row fieldnames row) = Ok t)
  ∨ parse_row (Csv.dict_row fieldnames row) = Raise AttributeError.
Proof.
  destruct (decide (length row ≤ length fieldnames)) as [Hlen|Hlen].
  - left. destruct (parse_row_returns fieldnames row Hlen) as (t & Ht & _).
    eauto.
  - right. apply parse_row_surplus. lia.
Qed.

Lemma parse_rows_surplus (fieldnames : list string)
    (s : Csv.stream (list string)) (rows : list (list string))
    (records : list Turbine) :
  Csv.collect s = Ok rows →
  Exists (λ row, length fieldnames < length row) rows →
  parse_rows (Csv.dict_rows fieldnames s) records = Raise AttributeError.
Proof.
  revert rows records. induction s as [|row rest IH|e];
    intros rows records Hc Hex.
  - simplify_eq/=. by apply Exists_nil in Hex.
  - cbn in Hc. destruct (Csv.collect rest) as [rows'|] eqn:Hrest; [|done].
    simplify_eq/=. apply Exists_cons in Hex.
    destruct row as [|c row].
    + destruct Hex as [Hex|Hex]; [cbn in Hex; lia|]. by apply (IH rows').
    + cbn [parse_rows].
      destruct (parse_row_cases fieldnames (c :: row)) as [[t Ht]| ->];
        [|done].
      rewrite Ht. cbn. destruct Hex as [Hex|Hex]; [|by apply (IH rows')].
      rewrite parse_row_surplus in Ht; done.
  - done.
Qed.

(** X12: when the reader gives a header and rows, and a row has more
    cells than the header, the parser raises [AttributeError]: no record
    is returned. *)
Theorem surplus_cells_raise (csv_text : string)
    (fieldnames : list string) (rows : list (list string)) :
  Csv.collect (Csv.reader csv_text) = Ok (fieldnames :: rows) →
  Exists (λ row, length fieldnames < length row) rows →
  parse_turbine_csv csv_text = Raise AttributeError.
Proof.
  intros Hc Hex. unfold parse_turbine_csv, Csv.DictReader.
  destruct (Csv.reader csv_text) as [|h rest|e]; try done.
  cbn in Hc. destruct (Csv.collect rest) as [rows'|] eqn:Hrest; [|done].
  injection Hc as -> ->. by apply (parse_rows_surplus _ _ rows).
Qed.

End ParserFurther.

(** ** Listing and counting *)

Section Readers.
Context {RT : Runtime}.
Implicit Types (w : World) (c : Collection) (ts : list Turbine).

Lemma find_status (v : string) c :
  find (Csv.dict_set "status" v []) c
  = filter (λ d, status (data d) = v) c.
Proof.
  unfold find. apply list_filter_iff. intros d. cbn.
  unfold field_is. cbn. rewrite andb_true_r. apply bool_decide_eq_true.
Qed.

Lemma on_collection_read {A} (f : Collection → A) w c :
  db w = Some c → on_collection (λ c, (f c, c)) w = (Ok (f c), w).
Proof. intros Hdb. unfold on_collection. rewrite Hdb. by destruct w; simplify_eq/=. Qed.

Lemma list_turbines_filtered (s : string) w c :
  db w = Some c →
  s ≠ "" →
  list_turbines (Some s) w
  = (Ok (serialize_doc <$> filter (λ d, status (data d) = PyStr.title s) c),
     w).
Proof.
  intros Hdb Hs. destruct s as [|a s]; [done|].
  unfold list_turbines, mbind, IO_bind, get_db, get_documents.
  rewrite Hdb. cbn -[Csv.dict_set PyStr.title filter].
  rewrite (on_collection_read _ w c Hdb). by rewrite find_status.
Qed.

(** X15: with a status, the listing is the stored documents whose status
    is the title case of the status asked for, in their order, so that
    two statuses with one title case list the same; the world is left as
    it is. *)
Theorem list_turbines_by_status (s s' : string) w c :
  db w = Some c →
  s ≠ "" →
  list_turbines (Some s) w
  = (Ok (serialize_doc <$> filter (λ d, status (data d) = PyStr.title s) c),
     w)
  ∧ (s' ≠ "" → PyStr.title s' = PyStr.title s →
     list_turbines (Some s') w = list_turbines (Some s) w).
Proof.
  intros Hdb Hs. split; [by apply list_turbines_filtered|].
  intros Hs' Ht.
  rewrite (list_turbines_filtered s w c), (list_turbines_filtered s' w c)
    by done.
  by rewrite Ht.
Qed.

Lemma list_turbines_unfiltered (s : option string) w c :
  db w = Some c →
  s = None ∨ s = Some "" →
  list_turbines s w = (Ok (serialize_doc <$> c), w).
Proof.
  intros Hdb Hs.
  unfold list_turbines, mbind, IO_bind, get_db, get_documents.
  rewrite Hdb. destruct Hs as [-> | ->]; cbn;
    by rewrite (on_collection_read _ w c Hdb), find_no_filter.
Qed.

Lemma count_status (v : string) w c :
  db w = Some c →
  count v w = (Ok (length (filter (λ d, status (data d) = v) c)), w).
Proof.
  intros Hdb. unfold count, count_documents.
  rewrite (on_collection_read (λ c, length (find _ c)) w c Hdb).
  by rewrite find_status.
Qed.

Lemma filter_split_length {A} (P : A → Prop) `{∀ x, Decision (P x)}
    (l : list A) :
  length (filter P l) + length (filter (λ x, ¬ P x) l) = length l.
Proof.
  induction l as [|x l IH]; [done|].
  destruct (decide (P x)).
  - rewrite filter_cons_True, (filter_cons_False (λ x, ¬ P x)) by tauto.
    cbn. lia.
  - rewrite filter_cons_False, (filter_cons_True (λ x, ¬ P x)) by tauto.
    cbn. lia.
Qed.

Lemma filter_three_length {A} (f : A → string) (a b c : string) (l : list A) :
  a ≠ b → a ≠ c → b ≠ c →
  length (filter (λ x, f x = a) l) + length (filter (λ x, f x = b) l)
  + length (filter (λ x, f x = c) l)
  + length (filter (λ x, f x ∉ [a; b; c]) l)
  = length l.
Proof.
  intros Hab Hac Hbc. induction l as [|x l IH]; [done|].
  assert (f x ∈ [a; b; c] ↔ f x = a ∨ f x = b ∨ f x = c) as Hin.
  { rewrite !elem_of_cons, elem_of_nil. tauto. }
  destruct (decide (f x = a)) as [Ha|Ha];
    [|destruct (decide (f x = b)) as [Hb|Hb];
      [|destruct (decide (f x = c)) as [Hc|Hc]]].
  - rewrite (filter_cons_True (λ x, f x = a)) by done.
    rewrite !(filter_cons_False _ x) by (try rewrite Hin; intuition congruence).
    cbn. lia.
  - rewrite (filter_cons_True (λ x, f x = b)) by done.
    rewrite !(filter_cons_False _ x) by (try rewrite Hin; intuition congruence).
    cbn. lia.
  - rewrite (filter_cons_True (λ x, f x = c)) by done.
    rewrite !(filter_cons_False _ x) by (try rewrite Hin; intuition congruence).
    cbn. lia.
  - rewrite (filter_cons_True (λ x, f x ∉ [a; b; c])) by (rewrite Hin; tauto).
    rewrite !(filter_cons_False _ x) by done.
    cbn. lia.
Qed.

Lemma turbine_stats_counts w c :
  db w = Some c →
  turbine_stats w
  = (Ok {| active := length (filter (λ d, status (data d) = "Active") c);
           inactive := length (filter (λ d, status (data d) = "Inactive") c);
           unknown := length (filter (λ d, status (data d) = "Unknown") c) |},
     w).
Proof.
  intros Hdb. unfold turbine_stats, mbind, IO_bind, get_db. rewrite Hdb.
  by rewrite !(count_status _ w c Hdb).
Qed.

(** X16: the three counts are those of the documents whose status is
    exactly [Active], [Inactive] and [Unknown]; with the documents of any
    other status they make up the collection; the world is left as it
    is. *)
Theorem turbine_stats_partition w c :
  db w = Some c →
  ∃ st,
    turbine_stats w = (Ok st, w)
    ∧ active st = length (filter (λ d, status (data d) = "Active") c)
    ∧ inactive st = length (filter (λ d, status (data d) = "Inactive") c)
    ∧ unknown st = length (filter (λ d, status (data d) = "Unknown") c)
    ∧ active st + inactive st + unknown st
      + length (filter (λ d, status (data d)
                             ∉ ["Active"; "Inactive"; "Unknown"]) c)
      = length c.
Proof.
  intros Hdb. eexists. split; [by apply turbine_stats_counts|].
  cbn. split_and!; [done..|].
  by apply (filter_three_length (λ d, status (data d))).
Qed.

(** X17: a count of the stats is the length of the listing under the same
    status, however the status asked for is cased. *)
Theorem stats_agree_with_listing (s : string) w c :
  db w = Some c →
  s ≠ "" →
  ∃ st out,
    turbine_stats w = (Ok st, w)
    ∧ list_turbines (Some s) w = (Ok out, w)
    ∧ (PyStr.title s = "Active" → length out = active st)
    ∧ (PyStr.title s = "Inactive" → length out = inactive st)
    ∧ (PyStr.title s = "Unknown" → length out = unknown st).
Proof.
  intros Hdb Hs. do 2 eexists.
  split; [by apply turbine_stats_counts|].
  split; [by apply list_turbines_filtered|].
  rewrite length_fmap. cbn. split_and!; by intros ->.
Qed.

(** Without a database the listing and the stats fail with the server
    error, and in every case they leave the world as it is. *)
Lemma readers_keep_world (s : option string) w :
  (list_turbines s w).2 = w
  ∧ (turbine_stats w).2 = w
  ∧ (db w = None →
     (list_turbines s w).1 = Raise (HTTPException 500 "Database not configured")
     ∧ (turbine_stats w).1
       = Raise (HTTPException 500 "Database not configured")).
Proof.
  destruct (db w) as [c|] eqn:Hdb.
  - rewrite (turbine_stats_counts w c Hdb).
    split_and!; [|done|done].
    destruct s as [[|a s]|].
    + by rewrite (list_turbines_unfiltered _ w c Hdb) by auto.
    + by rewrite (list_turbines_filtered (String a s) w c Hdb).
    + by rewrite (list_turbines_unfiltered _ w c Hdb) by auto.
  - unfold list_turbines, turbine_stats, mbind, IO_bind, get_db.
    rewrite Hdb. by split_and!.
Qed.

End Readers.

(** ** From the sheet to the listing *)

Section EndToEnd.
Context {RT : Runtime}.
Implicit Types (w : World) (c : Collection) (ts : list Turbine).

(** X18: after the loop over the records of a sheet of ASCII text, the
    last record of a name is listed under its own status. *)
Theorem imported_record_listed (csv_text : string) ts w c k t :
  isascii csv_text = true →
  parse_turbine_csv csv_text = Ok ts →
  db w = Some c →
  NoDup (_id <$> c) →
  ts !! k = Some t →
  name t ∉ name <$> drop (S k) ts →
  ∃ counts w1 out,
    upsert_all ts 0 0 w = (Ok counts, w1)
    ∧ list_turbines (Some (status t)) w1 = (Ok out, w1)
    ∧ t ∈ turbine <$> out.
Proof.
  intros _ Hparse Hdb Hnd Hk Hlast.
  pose proof (parse_turbine_csv_Forall _ csv_text ts record_of_normal Hparse)
    as Hnormal.
  rewrite Forall_lookup in Hnormal.
  destruct (Hnormal k t Hk) as (Hs & Htitle & _).
  destruct (upsert_all_returns ts 0 0 w c Hdb) as (i & u & Hrun & _).
  set (c' := foldl (λ c t, upsert t c) c ts) in *.
  destruct (reconcile_last_occurrence ts c k t Hnd Hk Hlast)
    as (d & Hd & Hdata).
  fold c' in Hd.
  exists (i, u), {| db := Some c'; fetched := fetched w |}. eexists.
  split; [done|]. split; [by apply list_turbines_filtered|].
  rewrite Htitle. apply list_elem_of_fmap. exists (serialize_doc d).
  split; [by rewrite <-Hdata|].
  apply list_elem_of_fmap_2, list_elem_of_filter. split; [by rewrite Hdata|].
  unfold find_one_name in Hd. apply fmap_Some in Hd as ([j d'] & Hf & ->).
  apply list_find_Some in Hf as (Hj & _ & _).
  by apply list_elem_of_lookup_2 in Hj.
Qed.

End EndToEnd.

(** ** Columns *)

Lemma not_elem_of_fmap_cons_here {A B} (f : A → B) (x : A) (l : list A) (y : B) :
  y ∉ f <$> (x :: l) → y ≠ f x ∧ y ∉ f <$> l.
Proof. rewrite fmap_cons, not_elem_of_cons. tauto. Qed.

(** With distinct column names, a row is its cells in the order of the
    header... *)
Lemma dict_zip_distinct (d : Csv.dict (option string) Csv.cell)
    (fieldnames row : list string) :
  NoDup fieldnames →
  Forall (λ kv, kv.1 ∉ Some <$> fieldnames) d →
  Csv.dict_zip d fieldnames row
  = d ++ zip (Some <$> fieldnames) (Csv.CStr <$> row).
Proof.
  revert d row. induction fieldnames as [|h fieldnames IH];
    intros d row Hnd Hd.
  { cbn. by rewrite app_nil_r. }
  apply NoDup_cons in Hnd as [Hh Hnd].
  destruct row as [|r row]; cbn [Csv.dict_zip].
  { cbn. by rewrite app_nil_r. }
  rewrite dict_set_fresh.
  2:{ eapply Forall_impl; [exact Hd|]. intros kv Hk.
      by apply not_elem_of_fmap_cons_here in Hk as [? _]. }
  rewrite IH; [by rewrite <-app_assoc|done|].
  apply Forall_app. split.
  - eapply Forall_impl; [exact Hd|]. intros kv Hk.
    by apply not_elem_of_fmap_cons_here in Hk as [_ ?].
  - constructor; [|done]. cbn. intros (h' & [= <-] & Hin)%list_elem_of_fmap.
    done.
Qed.

(** ... followed by [None] for the columns it does not reach. *)
Lemma restval_distinct (keys : list string)
    (d : Csv.dict (option string) Csv.cell) :
  NoDup keys →
  Forall (λ kv, kv.1 ∉ Some <$> keys) d →
  foldl (λ d key, Csv.dict_set (Some key) Csv.CNone d) d keys
  = d ++ ((λ k, (Some k, Csv.CNone)) <$> keys).
Proof.
  revert d. induction keys as [|h keys IH]; intros d Hnd Hd.
  { cbn. by rewrite app_nil_r. }
  apply NoDup_cons in Hnd as [Hh Hnd]. cbn [foldl].
  rewrite dict_set_fresh.
  2:{ eapply Forall_impl; [exact Hd|]. intros kv Hk.
      by apply not_elem_of_fmap_cons_here in Hk as [? _]. }
  rewrite IH; [by rewrite <-app_assoc|done|].
  apply Forall_app. split.
  - eapply Forall_impl; [exact Hd|]. intros kv Hk.
    by apply not_elem_of_fmap_cons_here in Hk as [_ ?].
  - constructor; [|done]. cbn. intros (h' & [= <-] & Hin)%list_elem_of_fmap.
    done.
Qed.

Lemma fst_zip_take {A B} (l : list A) (k : list B) :
  (zip l k).*1 = take (length k) l.
Proof.
  revert k. induction l as [|x l IH]; intros [|y k]; cbn; try done.
  by rewrite IH.
Qed.

Lemma dict_row_distinct (fieldnames row : list string) :
  NoDup fieldnames →
  length row ≤ length fieldnames →
  Csv.dict_row fieldnames row
  = zip (Some <$> fieldnames) (Csv.CStr <$> row)
    ++ ((λ k, (Some k, Csv.CNone)) <$> drop (length row) fieldnames).
Proof.
  intros Hnd Hlen. unfold Csv.dict_row.
  rewrite (proj2 (Nat.ltb_ge _ _) Hlen).
  rewrite (dict_zip_distinct [] fieldnames row Hnd) by done.
  rewrite app_nil_l.
  rewrite <-(take_drop (length row) fieldnames) in Hnd.
  apply NoDup_app in Hnd as (_ & Hdisj & Hnd2).
  apply restval_distinct; [done|].
  apply Forall_forall. intros [k v] Hkv Hin. cbn in Hin.
  apply list_elem_of_fmap in Hin as (h & -> & Hh).
  apply (list_elem_of_fmap_2 fst) in Hkv. cbn in Hkv.
  rewrite fst_zip_take, length_fmap, <-fmap_take in Hkv.
  apply list_elem_of_fmap in Hkv as (h' & [= <-] & Hh').
  by apply (Hdisj h).
Qed.

Lemma dict_row_keys (fieldnames row : list string) :
  NoDup fieldnames →
  length row ≤ length fieldnames →
  (Csv.dict_row fieldnames row).*1 = Some <$> fieldnames.
Proof.
  intros Hnd Hlen. rewrite (dict_row_distinct _ _ Hnd Hlen), fmap_app.
  rewrite fst_zip_take, length_fmap, <-fmap_take, <-list_fmap_compose.
  rewrite <-fmap_app. by rewrite take_drop.
Qed.

Lemma dict_row_cell (fieldnames row : list string) (i : nat) (h : string) :
  NoDup fieldnames →
  length row ≤ length fieldnames →
  fieldnames !! i = Some h →
  ∃ v, (Some h, v) ∈ Csv.dict_row fieldnames row
       ∧ strip_cell v = Ok (PyStr.strip (default "" (row !! i))).
Proof.
  intros Hnd Hlen Hi. rewrite (dict_row_distinct _ _ Hnd Hlen).
  destruct (row !! i) as [r|] eqn:Hr.
  - exists (Csv.CStr r). split; [|done]. apply elem_of_app. left.
    apply (list_elem_of_lookup_2 _ i). rewrite lookup_zip_with.
    by rewrite !list_lookup_fmap, Hi, Hr.
  - exists Csv.CNone. split; [|done]. apply elem_of_app. right.
    apply (list_elem_of_fmap_2 (λ k, (Some k, Csv.CNone))).
    apply lookup_ge_None in Hr.
    apply (list_elem_of_lookup_2 _ (i - length row)).
    rewrite lookup_drop. by replace (length row + (i - length row)) with i by lia.
Qed.

(** What [normalize] leaves under a key that no item has. *)
Lemma normalize_other (items : Csv.dict (option string) Csv.cell)
    (acc m : gmap string string) (key : string) :
  normalize items acc = Ok m →
  key ∉ (λ k, column_key (default "" k)) <$> items.*1 →
  m !! key = acc !! key.
Proof.
  revert acc. induction items as [|[k v] items IH]; intros acc Hn Hkey.
  { by injection Hn as <-. }
  cbn in Hn, Hkey. apply not_elem_of_cons in Hkey as [Hk Hkey].
  destruct (strip_cell v) as [s|]; [|done]. cbn in Hn.
  rewrite (IH _ Hn Hkey). by rewrite lookup_insert_ne.
Qed.

(** What [normalize] puts under the key of an item, when no two items
    have one key. *)
Lemma normalize_lookup (items : Csv.dict (option string) Csv.cell)
    (acc m : gmap string string) (k : option string) (v : Csv.cell) :
  NoDup ((λ k, column_key (default "" k)) <$> items.*1) →
  normalize items acc = Ok m →
  (k, v) ∈ items →
  ∃ s, strip_cell v = Ok s ∧ m !! column_key (default "" k) = Some s.
Proof.
  revert acc. induction items as [|[k0 v0] items IH]; intros acc Hnd Hn Hin.
  { by apply elem_of_nil in Hin. }
  rewrite !fmap_cons in Hnd. cbn [fst] in Hnd.
  apply NoDup_cons in Hnd as [Hk0 Hnd].
  cbn [normalize] in Hn.
  destruct (strip_cell v0) as [s0|] eqn:Hs0; [|done]. cbn in Hn.
  change (PyStr.lower (PyStr.strip (default "" k0)))
    with (column_key (default "" k0)) in Hn.
  apply elem_of_cons in Hin as [[= -> ->]|Hin].
  - exists s0. split; [done|].
    rewrite (normalize_other _ _ _ _ Hn Hk0). apply lookup_insert_eq.
  - by apply (IH _ Hnd Hn).
Qed.

Section Columns.
Context {RT : Runtime}.

Lemma normalized_columns (fieldnames row : list string)
    (normalized : gmap string string) :
  NoDup (column_key <$> fieldnames) →
  length row ≤ length fieldnames →
  normalize (Csv.dict_row fieldnames row) ∅ = Ok normalized →
  (∀ i h, fieldnames !! i = Some h →
     normalized !! column_key h
     = Some (PyStr.strip (default "" (row !! i))))
  ∧ (∀ key, key ∉ column_key <$> fieldnames → normalized !! key = None).
Proof.
  intros Hkeys Hlen Hn.
  pose proof (NoDup_fmap_1 _ _ Hkeys) as Hnd.
  assert ((λ k, column_key (default "" k))
            <$> (Csv.dict_row fieldnames row).*1
          = column_key <$> fieldnames) as Hk.
  { rewrite (dict_row_keys _ _ Hnd Hlen), <-list_fmap_compose.
    by apply list_fmap_ext. }
  split.
  - intros i h Hi.
    destruct (dict_row_cell fieldnames row i h Hnd Hlen Hi) as (v & Hin & Hv).
    destruct (normalize_lookup (Csv.dict_row fieldnames row) ∅ normalized
                (Some h) v) as (s & Hs & Hm);
      [by rewrite Hk|done..|].
    rewrite Hv in Hs. injection Hs as <-. exact Hm.
  - intros key Hkey.
    rewrite (normalize_other (Csv.dict_row fieldnames row) ∅ normalized key Hn).
    + apply lookup_empty.
    + by rewrite Hk.
Qed.

(** X13: when the names of the header are distinct after stripping and
    lowercasing, and the row is not longer than the header, the
    normalized row holds, under the key of each column, the stripped cell
    of the row in that column, or the empty text when the row does not
    reach the column; and it holds nothing under any other key. *)
Theorem column_lookup (fieldnames row : list string)
    (normalized : gmap string string) :
  NoDup (column_key <$> fieldnames) →
  length row ≤ length fieldnames →
  normalize (Csv.dict_row fieldnames row) ∅ = Ok normalized →
  (∀ i h, fieldnames !! i = Some h →
     normalized !! column_key h
     = Some (PyStr.strip (default "" (row !! i))))
  ∧ (∀ key, key ∉ column_key <$> fieldnames → normalized !! key = None).
Proof. apply normalized_columns. Qed.

(** X14: a column whose name is [name] once stripped and lowercased
    gives the record its name, whatever the other columns hold, when its
    cell is not blank: the row is parsed and the name of the record is
    the stripped cell. *)
Theorem name_column_wins (fieldnames row : list string) (i : nat)
    (h : string) :
  NoDup (column_key <$> fieldnames) →
  length row ≤ length fieldnames →
  fieldnames !! i = Some h →
  column_key h = "name" →
  PyStr.strip (default "" (row !! i)) ≠ "" →
  ∃ t, parse_row (Csv.dict_row fieldnames row) = Ok t
       ∧ name t = PyStr.strip (default "" (row !! i)).
Proof.
  intros Hkeys Hlen Hi Hh Hcell.
  destruct (parse_row_returns fieldnames row Hlen) as (t & Ht & _).
  exists t. split; [done|].
  apply parse_row_inv in Ht as (m & Hm & Hr).
  destruct (normalized_columns fieldnames row m Hkeys Hlen Hm) as [Hcol _].
  specialize (Hcol i h Hi). rewrite Hh in Hcol.
  destruct (record_of_returns m) as (lat & lng & cap & _ & _ & _ & Hr').
  rewrite Hr' in Hr. injection Hr as <-. cbn.
  unfold name_cell. rewrite Hcol.
  by destruct (PyStr.strip (default "" (row !! i))).
Qed.

End Columns.
(** ** Examples *)

Example title_in_service : PyStr.title "IN SERVICE" = "In Service".
Proof. reflexivity. Qed.

Example title_active : PyStr.title "active" = "Active".
Proof. reflexivity. Qed.

Example strip_na : PyStr.strip "  N/A  " = "N/A".
Proof. reflexivity. Qed.

Example split_doc :
  PyStr.split "/d/" "https://docs.google.com/spreadsheets/d/abc/edit?gid=7"
  = ["https://docs.google.com/spreadsheets"; "abc/edit?gid=7"].
Proof. reflexivity. Qed.

Example export_url_gid :
  export_url "https://docs.google.com/spreadsheets/d/abc/edit?gid=7&x=1"
  = Ok "https://docs.google.com/spreadsheets/d/abc/export?format=csv&gid=7".
Proof. reflexivity. Qed.

Example reader_quoted :
  Csv.collect (Csv.reader ("a,b" +:+ nl +:+ "1," +:+ dq +:+ "x," +:+ nl
                           +:+ "y" +:+ dq +:+ nl))
  = Ok [["a"; "b"]; ["1"; "x," +:+ nl +:+ "y"]].
Proof. vm_compute. reflexivity. Qed.

Example surplus_cell_raises :
  parse_turbine_csv (RT:=sample_runtime) ("name" +:+ nl +:+ "T1,active" +:+ nl)
  = Raise AttributeError.
Proof. vm_compute. reflexivity. Qed.

Example import_sample :
  (import_turbines (NW:=sample_network)
     "https://docs.google.com/spreadsheets/d/abc/edit" sample_world).1
  = Ok {| inserted := 1; updated := 2 |}.
Proof. vm_compute. reflexivity. Qed.

(** ** The properties at sample inputs *)

#[local] Existing Instance sample_runtime.
#[local] Existing Instance sample_network.

Lemma last_write_wins_witness :
  db sample_world = Some sample_store
  ∧ NoDup (_id <$> sample_store)
  ∧ ∃ c',
      upsert_all sample_records 0 0 sample_world
      = (Ok (spec_counts (names sample_store) sample_records),
         {| db := Some c'; fetched := fetched sample_world |})
      ∧ (∀ k t, sample_records !! k = Some t →
           name t ∉ name <$> drop (S k) sample_records →
           ∃ d, find_one_name (name t) c' = Some d ∧ data d = t)
      ∧ (∀ n e, find_one_name n sample_store = Some e →
           ∃ d, find_one_name n c' = Some d ∧ _id d = _id e).
Proof.
  assert (NoDup (_id <$> sample_store)) as Hnd by apply NoDup_singleton.
  split; [reflexivity|]. split; [exact Hnd|].
  exact (last_write_wins sample_world sample_store sample_records eq_refl Hnd).
Defined.

Lemma numeric_cells_absent_witness :
  parse_turbine_csv sample_sheet = Ok sample_records
  ∧ each_row sample_sheet sample_records numeric_absent.
Proof.
  split; [vm_compute; reflexivity|].
  apply (proj2 (numeric_cells_absent (RT:=sample_runtime))
           sample_sheet sample_records).
  vm_compute; reflexivity.
Defined.



Lemma name_never_empty_witness :
  parse_turbine_csv sample_sheet = Ok sample_records
  ∧ each_row sample_sheet sample_records (λ normalized t,
      name t ≠ ""
      ∧ (Forall (λ k, blank (normalized !! k))
           ["name"; "turbine"; "id"; "identifier"] →
         name t = "Unnamed Turbine")).
Proof.
  split; [vm_compute; reflexivity|].
  apply (name_never_empty (RT:=sample_runtime) sample_sheet sample_records).
  vm_compute; reflexivity.
Defined.

Lemma one_record_per_row_witness :
  let fieldnames := ["Name"; "State"; "lat"; "capacity"] in
  let rows := [ ["T1"; "active"; "10"; "2"];
                ["T2"; "IN SERVICE"; "NA"; "n/a"];
                ["T1"; "inactive"; "11"; "3"] ] in
  Csv.collect (Csv.reader sample_sheet) = Ok (fieldnames :: rows)
  ∧ Forall (λ row, length row ≤ length fieldnames) rows
  ∧ ∃ records,
      parse_turbine_csv (RT:=sample_runtime) sample_sheet = Ok records
      ∧ Forall2 (λ row t,
           parse_row (Csv.dict_row fieldnames row) = Ok t
           ∧ (Forall (λ c, PyStr.strip c = "") row → t = default_record))
          (filter (λ row, row ≠ []) rows) records.
Proof.
  intros fieldnames rows.
  assert (Forall (λ row, length row ≤ length fieldnames) rows) as Hlen
    by (repeat constructor).
  split; [vm_compute; reflexivity|]. split; [exact Hlen|].
  apply (one_record_per_row (RT:=sample_runtime) sample_sheet fieldnames rows);
    [vm_compute; reflexivity|exact Hlen].
Defined.

(** A blank line between two rows: three lines follow the header and two
    records come out. *)
Lemma blank_line_gives_no_record :
  let csv_text := "name" +:+ nl +:+ "A" +:+ nl +:+ nl +:+ "B" +:+ nl in
  Csv.lines csv_text = ["name" +:+ nl; "A" +:+ nl; nl; "B" +:+ nl]
  ∧ ∃ a b, parse_turbine_csv (RT:=sample_runtime) csv_text = Ok [a; b]
           ∧ name a = "A" ∧ name b = "B".
Proof.
  split; [vm_compute; reflexivity|].
  do 2 eexists. split_and!; [vm_compute; reflexivity|done..].
Qed.

Lemma export_url_unchanged_witness :
  let sheet_url :=
    "https://docs.google.com/spreadsheets/d/abc/export?format=csv&gid=3" in
  PyStr.contains marker sheet_url = true
  ∧ export_url sheet_url = Ok sheet_url
  ∧ ∀ w : @World sample_runtime,
      fetched (fetch_google_sheet_csv (NW:=sample_network) sheet_url w).2
      = fetched w ++ [sheet_url].
Proof.
  intros sheet_url. split; [reflexivity|].
  exact (export_url_unchanged (RT:=sample_runtime) (NW:=sample_network)
           sheet_url eq_refl).
Defined.

Lemma export_url_invalid_witness :
  let sheet_url := "https://docs.google.com/spreadsheets/abc/edit" in
  PyStr.contains marker sheet_url = false
  ∧ PyStr.contains "/d/" sheet_url = false
  ∧ export_url sheet_url
    = Raise (HTTPException 400 "Invalid Google Sheets URL")
  ∧ ∀ w : @World sample_runtime,
      fetch_google_sheet_csv (NW:=sample_network) sheet_url w
      = (Raise (HTTPException 400 "Invalid Google Sheets URL"), w).
Proof.
  intros sheet_url. split; [reflexivity|]. split; [reflexivity|].
  exact (export_url_invalid (RT:=sample_runtime) (NW:=sample_network)
           sheet_url eq_refl eq_refl).
Defined.

(** An export URL of another shape: no [/d/] in it, and it is resolved. *)
Lemma marked_url_without_delimiter :
  let sheet_url := "https://example.com/sheets/abc/export?format=csv" in
  PyStr.contains "/d/" sheet_url = false
  ∧ export_url sheet_url = Ok sheet_url.
Proof. split; reflexivity. Qed.

Lemma import_needs_database_witness :
  let w : @World sample_runtime := {| db := None; fetched := [] |} in
  db w = None
  ∧ import_turbines (NW:=sample_network)
      "https://docs.google.com/spreadsheets/d/abc/edit" w
    = (Raise (HTTPException 500 "Database not configured"), w).
Proof.
  intros w. split; [reflexivity|].
  exact (import_needs_database (NW:=sample_network)
           "https://docs.google.com/spreadsheets/d/abc/edit" w eq_refl).
Defined.

Lemma every_record_counted_witness :
  let sheet_url := "https://docs.google.com/spreadsheets/d/abc/edit" in
  let r := {| inserted := 1; updated := 2 |} in
  let w' := (import_turbines (NW:=sample_network) sheet_url sample_world).2 in
  import_turbines (NW:=sample_network) sheet_url sample_world = (Ok r, w')
  ∧ ∃ csv_text turbines w1,
      fetch_google_sheet_csv (NW:=sample_network) sheet_url sample_world
      = (Ok csv_text, w1)
      ∧ parse_turbine_csv csv_text = Ok turbines
      ∧ inserted r + updated r = length turbines.
Proof.
  intros sheet_url r w'.
  assert (import_turbines (NW:=sample_network) sheet_url sample_world
          = (Ok r, w')) as Himport by (vm_compute; reflexivity).
  split; [exact Himport|].
  exact (every_record_counted (NW:=sample_network) sheet_url sample_world w' r
           Himport).
Defined.

Lemma empty_status_lists_all_witness :
  db sample_world = Some sample_store
  ∧ list_turbines (Some "") sample_world = list_turbines None sample_world
  ∧ list_turbines None sample_world
    = (Ok (serialize_doc <$> sample_store), sample_world).
Proof.
  split; [reflexivity|].
  exact (empty_status_lists_all sample_world sample_store eq_refl).
Defined.

(** ** The further properties at sample inputs *)

Lemma export_url_fixed_point_witness :
  let sheet_url := "https://docs.google.com/spreadsheets/d/abc/edit?gid=7" in
  let url :=
    "https://docs.google.com/spreadsheets/d/abc/export?format=csv&gid=7" in
  export_url sheet_url = Ok url
  ∧ PyStr.contains marker url = true ∧ export_url url = Ok url.
Proof.
  intros sheet_url url. split; [reflexivity|].
  exact (export_url_fixed_point sheet_url url eq_refl).
Defined.

Lemma share_link_resolved_witness :
  let a := "https://docs.google.com/spreadsheets" in
  let id := "abc" in
  let tail := "/edit" in
  PyStr.contains marker (a +:+ "/d/" +:+ id +:+ tail) = false
  ∧ PyStr.contains "gid=" (a +:+ "/d/" +:+ id +:+ tail) = false
  ∧ PyStr.contains "/d/" (a +:+ "/d") = false
  ∧ PyStr.contains "/" id = false
  ∧ (tail = "" ∨ PyStr.startswith "/" tail = true)
  ∧ export_url (a +:+ "/d/" +:+ id +:+ tail)
    = Ok (sheets +:+ id +:+ "/export?format=csv").
Proof.
  intros a id tail. split_and!; [reflexivity..|by right|].
  apply (share_link_resolved a id tail); [reflexivity..|by right].
Defined.

Lemma share_link_gid_resolved_witness :
  let a := "https://docs.google.com/spreadsheets" in
  let id := "abc" in
  let mid := "edit?" in
  let g := "7" in
  let rest := "&range=A1" in
  let sheet_url :=
    a +:+ "/d/" +:+ id +:+ "/" +:+ mid +:+ "gid=" +:+ g +:+ rest in
  PyStr.contains marker sheet_url = false
  ∧ PyStr.contains "/d/" (a +:+ "/d") = false
  ∧ PyStr.contains "/" id = false
  ∧ PyStr.contains "gid=" (a +:+ "/d/" +:+ id +:+ "/" +:+ mid +:+ "gid")
    = false
  ∧ PyStr.contains "gid=" (g +:+ rest) = false
  ∧ PyStr.contains "&" g = false
  ∧ g ≠ ""
  ∧ (rest = "" ∨ PyStr.startswith "&" rest = true)
  ∧ export_url sheet_url
    = Ok (sheets +:+ id +:+ "/export?format=csv&gid=" +:+ g).
Proof.
  intros a id mid g rest sheet_url.
  split_and!; [reflexivity..|done|by right|].
  apply (share_link_gid_resolved a id mid g rest);
    [reflexivity..|done|by right].
Defined.

Lemma export_url_shape_witness :
  let sheet_url := "https://docs.google.com/spreadsheets/d/abc/edit?gid=7" in
  let url :=
    "https://docs.google.com/spreadsheets/d/abc/export?format=csv&gid=7" in
  export_url sheet_url = Ok url
  ∧ (PyStr.contains marker sheet_url = true ∧ url = sheet_url
     ∨ ∃ doc_id,
         PyStr.contains "/" doc_id = false
         ∧ (url = sheets +:+ doc_id +:+ "/export?format=csv"
            ∨ ∃ gid, gid ≠ "" ∧ PyStr.contains "&" gid = false
                     ∧ url = sheets +:+ doc_id +:+ "/export?format=csv&gid="
                             +:+ gid)).
Proof.
  intros sheet_url url. split; [reflexivity|].
  exact (export_url_shape sheet_url url eq_refl).
Defined.

Lemma fetch_returns_only_200_witness :
  let sheet_url := "https://docs.google.com/spreadsheets/d/abc/edit" in
  let w' := (fetch_google_sheet_csv sheet_url sample_world).2 in
  fetch_google_sheet_csv sheet_url sample_world = (Ok sample_sheet, w')
  ∧ ∃ url resp,
      export_url sheet_url = Ok url
      ∧ requests_get url = Ok resp
      ∧ status_code resp = 200
      ∧ text resp = sample_sheet
      ∧ w' = {| db := db sample_world;
                fetched := fetched sample_world ++ [url] |}.
Proof.
  intros sheet_url w'.
  assert (fetch_google_sheet_csv sheet_url sample_world
          = (Ok sample_sheet, w')) as Hf by (vm_compute; reflexivity).
  split; [exact Hf|].
  exact (fetch_returns_only_200 sheet_url sample_sheet sample_world w' Hf).
Defined.

Lemma fetch_rejects_other_status_witness :
  let sheet_url := "https://docs.google.com/spreadsheets/d/abc/edit" in
  let url := "https://docs.google.com/spreadsheets/d/abc/export?format=csv" in
  let resp := {| status_code := 503; text := "" |} in
  export_url sheet_url = Ok url
  ∧ requests_get (Network := down_network) url = Ok resp
  ∧ status_code resp ≠ 200
  ∧ fetch_google_sheet_csv (NW := down_network) sheet_url sample_world
    = (Raise (HTTPException 400
                ("Failed to fetch sheet CSV: " +:+ pretty (status_code resp))),
       {| db := db sample_world;
          fetched := fetched sample_world ++ [url] |}).
Proof.
  intros sheet_url url resp.
  assert (status_code resp ≠ 200) as Hs by (cbn; lia).
  split_and!; [reflexivity|reflexivity|exact Hs|].
  exact (fetch_rejects_other_status (NW := down_network) sheet_url url resp
           sample_world eq_refl eq_refl Hs).
Defined.

Lemma import_failure_keeps_store_witness :
  let sheet_url := "https://docs.google.com/spreadsheets/d/abc/edit" in
  let e := HTTPException 400 "Failed to fetch sheet CSV: 503" in
  let w' := (import_turbines (NW := down_network) sheet_url sample_world).2 in
  import_turbines (NW := down_network) sheet_url sample_world = (Raise e, w')
  ∧ db w' = db sample_world
  ∧ (fetched w' = fetched sample_world
     ∨ ∃ url, export_url sheet_url = Ok url
              ∧ fetched w' = fetched sample_world ++ [url]).
Proof.
  intros sheet_url e w'.
  assert (import_turbines (NW := down_network) sheet_url sample_world
          = (Raise e, w')) as Hi by (vm_compute; reflexivity).
  split; [exact Hi|].
  exact (import_failure_keeps_store (NW := down_network) sheet_url
           sample_world w' e Hi).
Defined.

Lemma import_success_grows_witness :
  let sheet_url := "https://docs.google.com/spreadsheets/d/abc/edit" in
  let r := {| inserted := 1; updated := 2 |} in
  let w' := (import_turbines sheet_url sample_world).2 in
  import_turbines sheet_url sample_world = (Ok r, w')
  ∧ ∃ url c c',
      export_url sheet_url = Ok url
      ∧ fetched w' = fetched sample_world ++ [url]
      ∧ db sample_world = Some c ∧ db w' = Some c'
      ∧ (_id <$> c) `prefix_of` (_id <$> c')
      ∧ length c' = length c + inserted r.
Proof.
  intros sheet_url r w'.
  assert (import_turbines sheet_url sample_world = (Ok r, w')) as Hi
    by (vm_compute; reflexivity).
  split; [exact Hi|].
  exact (import_success_grows sheet_url sample_world w' r Hi).
Defined.

Lemma import_keeps_other_documents_witness :
  db sample_world = Some sample_store
  ∧ NoDup (_id <$> sample_store)
  ∧ ∃ counts c',
      upsert_all sample_records 0 0 sample_world
      = (Ok counts, {| db := Some c'; fetched := fetched sample_world |})
      ∧ names c' = names sample_store ∪ list_to_set (name <$> sample_records)
      ∧ ∀ k d, sample_store !! k = Some d →
          name (data d) ∉ name <$> sample_records →
          c' !! k = Some d.
Proof.
  assert (NoDup (_id <$> sample_store)) as Hnd by apply NoDup_singleton.
  split; [reflexivity|]. split; [exact Hnd|].
  exact (import_keeps_other_documents sample_world sample_store sample_records
           eq_refl Hnd).
Defined.

Lemma reimport_changes_nothing_witness :
  db sample_world = Some sample_store
  ∧ NoDup (_id <$> sample_store)
  ∧ ∃ counts w1,
      upsert_all sample_records 0 0 sample_world = (Ok counts, w1)
      ∧ upsert_all sample_records 0 0 w1
        = (Ok (0, length sample_records), w1).
Proof.
  assert (NoDup (_id <$> sample_store)) as Hnd by apply NoDup_singleton.
  split; [reflexivity|]. split; [exact Hnd|].
  exact (reimport_changes_nothing sample_world sample_store sample_records
           eq_refl Hnd).
Defined.

Lemma records_normalized_witness :
  isascii sample_sheet = true
  ∧ parse_turbine_csv sample_sheet = Ok sample_records
  ∧ Forall (λ t, status t ≠ ""
                 ∧ PyStr.title (status t) = status t
                 ∧ location t ≠ Some "") sample_records.
Proof.
  split; [vm_compute; reflexivity|]. split; [vm_compute; reflexivity|].
  apply (records_normalized sample_sheet sample_records);
    vm_compute; reflexivity.
Defined.

Lemma surplus_cells_raise_witness :
  let csv_text := "name" +:+ nl +:+ "T1,active" +:+ nl in
  let fieldnames := ["name"] in
  let rows := [["T1"; "active"]] in
  Csv.collect (Csv.reader csv_text) = Ok (fieldnames :: rows)
  ∧ Exists (λ row, length fieldnames < length row) rows
  ∧ parse_turbine_csv csv_text = Raise AttributeError.
Proof.
  intros csv_text fieldnames rows.
  assert (Exists (λ row, length fieldnames < length row) rows) as Hex
    by (apply Exists_cons_hd; cbn; lia).
  split; [vm_compute; reflexivity|]. split; [exact Hex|].
  apply (surplus_cells_raise csv_text fieldnames rows);
    [vm_compute; reflexivity|exact Hex].
Defined.

Lemma column_lookup_witness :
  let fieldnames := ["Name"; "State"; "lat"; "capacity"] in
  let row := ["T1"; "active"; "10"; "2"] in
  NoDup (column_key <$> fieldnames)
  ∧ length row ≤ length fieldnames
  ∧ normalize (Csv.dict_row fieldnames row) ∅ = Ok sample_normalized
  ∧ (∀ i h, fieldnames !! i = Some h →
       sample_normalized !! column_key h
       = Some (PyStr.strip (default "" (row !! i))))
  ∧ (∀ key, key ∉ column_key <$> fieldnames →
       sample_normalized !! key = None).
Proof.
  intros fieldnames row.
  assert (NoDup (column_key <$> fieldnames)) as Hnd
    by (refine (bool_decide_unpack _ _); vm_compute; exact I).
  assert (length row ≤ length fieldnames) as Hlen by (cbn; lia).
  split; [exact Hnd|]. split; [exact Hlen|].
  split; [vm_compute; reflexivity|].
  apply (column_lookup fieldnames row sample_normalized Hnd Hlen).
  vm_compute; reflexivity.
Defined.

Lemma list_turbines_by_status_witness :
  let s := "unknown" in
  let s' := "UNKNOWN" in
  db sample_world = Some sample_store
  ∧ s ≠ ""
  ∧ list_turbines (Some s) sample_world
    = (Ok (serialize_doc
             <$> filter (λ d, status (data d) = PyStr.title s) sample_store),
       sample_world)
  ∧ (s' ≠ "" → PyStr.title s' = PyStr.title s →
     list_turbines (Some s') sample_world
     = list_turbines (Some s) sample_world).
Proof.
  intros s s'. assert (s ≠ "") as Hs by done.
  split; [reflexivity|]. split; [exact Hs|].
  exact (list_turbines_by_status s s' sample_world sample_store eq_refl Hs).
Defined.

Lemma turbine_stats_partition_witness :
  db sample_world = Some sample_store
  ∧ ∃ st,
      turbine_stats sample_world = (Ok st, sample_world)
      ∧ active st
        = length (filter (λ d, status (data d) = "Active") sample_store)
      ∧ inactive st
        = length (filter (λ d, status (data d) = "Inactive") sample_store)
      ∧ unknown st
        = length (filter (λ d, status (data d) = "Unknown") sample_store)
      ∧ active st + inactive st + unknown st
        + length (filter (λ d, status (data d)
                               ∉ ["Active"; "Inactive"; "Unknown"])
                    sample_store)
        = length sample_store.
Proof.
  split; [reflexivity|].
  exact (turbine_stats_partition sample_world sample_store eq_refl).
Defined.

Lemma stats_agree_with_listing_witness :
  let s := "unknown" in
  db sample_world = Some sample_store
  ∧ s ≠ ""
  ∧ ∃ st out,
      turbine_stats sample_world = (Ok st, sample_world)
      ∧ list_turbines (Some s) sample_world = (Ok out, sample_world)
      ∧ (PyStr.title s = "Active" → length out = active st)
      ∧ (PyStr.title s = "Inactive" → length out = inactive st)
      ∧ (PyStr.title s = "Unknown" → length out = unknown st).
Proof.
  intros s. assert (s ≠ "") as Hs by done.
  split; [reflexivity|]. split; [exact Hs|].
  exact (stats_agree_with_listing s sample_world sample_store eq_refl Hs).
Defined.

Lemma name_column_wins_witness :
  let fieldnames := ["Turbine"; " NAME "; "id"] in
  let row := ["x"; " T9 "; "7"] in
  NoDup (column_key <$> fieldnames)
  ∧ length row ≤ length fieldnames
  ∧ fieldnames !! 1 = Some " NAME "
  ∧ column_key " NAME " = "name"
  ∧ PyStr.strip (default "" (row !! 1)) ≠ ""
  ∧ ∃ t, parse_row (Csv.dict_row fieldnames row) = Ok t
         ∧ name t = PyStr.strip (default "" (row !! 1)).
Proof.
  intros fieldnames row.
  assert (NoDup (column_key <$> fieldnames)) as Hnd
    by (refine (bool_decide_unpack _ _); vm_compute; exact I).
  assert (length row ≤ length fieldnames) as Hlen by (cbn; lia).
  assert (PyStr.strip (default "" (row !! 1)) ≠ "") as Hcell
    by (vm_compute; discriminate).
  split_and!; [exact Hnd|exact Hlen|reflexivity|reflexivity|exact Hcell|].
  exact (name_column_wins fieldnames row 1 " NAME " Hnd Hlen eq_refl eq_refl
           Hcell).
Defined.

Lemma imported_record_listed_witness :
  let t := @Build_Turbine sample_runtime "T1" "Inactive" (Some 11) None
             (Some 3) None in
  isascii sample_sheet = true
  ∧ parse_turbine_csv sample_sheet = Ok sample_records
  ∧ db sample_world = Some sample_store
  ∧ NoDup (_id <$> sample_store)
  ∧ sample_records !! 2 = Some t
  ∧ (name t ∉ name <$> drop 3 sample_records)
  ∧ ∃ counts w1 out,
      upsert_all sample_records 0 0 sample_world = (Ok counts, w1)
      ∧ list_turbines (Some (status t)) w1 = (Ok out, w1)
      ∧ t ∈ turbine <$> out.
Proof.
  intros t.
  assert (parse_turbine_csv sample_sheet = Ok sample_records) as Hp
    by (vm_compute; reflexivity).
  assert (NoDup (_id <$> sample_store)) as Hnd by apply NoDup_singleton.
  assert (name t ∉ name <$> drop 3 sample_records) as Hlast
    by apply not_elem_of_nil.
  assert (isascii sample_sheet = true) as Ha by (vm_compute; reflexivity).
  split_and!;
    [exact Ha|exact Hp|reflexivity|exact Hnd|reflexivity|exact Hlast|].
  exact (imported_record_listed sample_sheet sample_records sample_world
           sample_store 2 t Ha Hp eq_refl Hnd eq_refl Hlast).
Defined.
